(** * Piwik template tags of django-analytical

    A shallow embedding of [analytical/templatetags/piwik.py] and the
    properties of its two template tags: the page view tag ([piwik],
    [PiwikNode]) and the site search tag ([piwik_search]).

    Python strings are modelled as [string], one character per code point
    below 256.  Python values that reach the formatting operators are the
    constructors of [pyval].  A dictionary is an association list in
    iteration order, because the index of a custom variable is its position
    in that order; the order is the one of insertion, as a dictionary keeps
    it from Python 3.7 on. *)

From Stdlib Require Import String Ascii List Bool Arith ZArith Lia DecimalString.
Import ListNotations.

Local Open Scope list_scope.
Local Open Scope string_scope.

Set Implicit Arguments.

(** ** Characters and strings *)

Module Str.

Definition dq : string := String "034"%char EmptyString.
Definition nl : string := String "010"%char EmptyString.

(** [p] is how [s] starts *)
Fixpoint prefix (p s : string) : bool :=
  match p, s with
  | EmptyString, _ => true
  | String _ _, EmptyString => false
  | String a p', String b s' => Ascii.eqb a b && prefix p' s'
  end.

(** [needle in hay] *)
Fixpoint contains (needle hay : string) : bool :=
  prefix needle hay
  || match hay with
     | EmptyString => false
     | String _ rest => contains needle rest
     end.

(** [s.startswith(p)] *)
Definition startswith (s p : string) : bool := prefix p s.

(** [s[n:]] *)
Fixpoint drop (n : nat) (s : string) : string :=
  match n, s with
  | O, _ => s
  | S _, EmptyString => EmptyString
  | S k, String _ rest => drop k rest
  end.

(** [s.count(c)] for a one-character [c] *)
Fixpoint count (c : ascii) (s : string) : nat :=
  match s with
  | EmptyString => 0
  | String a rest => (if Ascii.eqb a c then 1 else 0) + count c rest
  end.

(** [s.split(c)] for a one-character separator: the fields between the
    occurrences of [c], empty fields included. *)
Fixpoint split (c : ascii) (s : string) : list string :=
  match s with
  | EmptyString => [EmptyString]
  | String a rest =>
      if Ascii.eqb a c then EmptyString :: split c rest
      else match split c rest with
           | [] => [String a EmptyString]
           | field :: fields => String a field :: fields
           end
  end.

(** The positions at which [needle] occurs in [hay]. *)
Fixpoint occurrences_from (i : nat) (needle hay : string) : list nat :=
  ((if prefix needle hay then [i] else [])
   ++ match hay with
      | EmptyString => []
      | String _ rest => occurrences_from (S i) needle rest
      end)%list.

Definition occurrences := occurrences_from 0.

End Str.

(** ** Python values *)

Inductive pyval : Type :=
| PNone
| PBool (b : bool)
| PInt (z : Z)
| PStr (s : string).

Definition decimal (z : Z) : string := NilZero.string_of_int (Z.to_int z).

(** [str(v)], which is what the [%s] conversion applies. *)
Definition py_str (v : pyval) : string :=
  match v with
  | PNone => "None"
  | PBool true => "True"
  | PBool false => "False"
  | PInt z => decimal z
  | PStr s => s
  end.

(** *** [json.dumps] with its default [ensure_ascii=True] *)

Module Json.

Definition hex_digit (n : nat) : ascii :=
  match n with
  | 0 => "0" | 1 => "1" | 2 => "2" | 3 => "3" | 4 => "4"
  | 5 => "5" | 6 => "6" | 7 => "7" | 8 => "8" | 9 => "9"
  | 10 => "a" | 11 => "b" | 12 => "c" | 13 => "d" | 14 => "e"
  | _ => "f"
  end%char.

(** [ESCAPE_ASCII] of the [json.encoder] module: a backslash, a double
    quote, and every character outside the range from space to tilde. *)
Definition needs_escape (c : ascii) : bool :=
  let n := nat_of_ascii c in
  ((n =? 92) || (n =? 34) || (n <? 32) || (126 <? n))%nat.

Definition escape (c : ascii) : string :=
  let n := nat_of_ascii c in
  let bs := String "\"%char EmptyString in
  if (n =? 92)%nat then bs ++ bs
  else if (n =? 34)%nat then bs ++ Str.dq
  else if (n =? 8)%nat then bs ++ "b"
  else if (n =? 12)%nat then bs ++ "f"
  else if (n =? 10)%nat then bs ++ "n"
  else if (n =? 13)%nat then bs ++ "r"
  else if (n =? 9)%nat then bs ++ "t"
  else bs ++ "u00"
       ++ String (hex_digit (n / 16)) (String (hex_digit (n mod 16)) EmptyString).

Fixpoint encode_chars (s : string) : string :=
  match s with
  | EmptyString => EmptyString
  | String c rest =>
      (if needs_escape c then escape c else String c EmptyString)
      ++ encode_chars rest
  end.

Definition dumps (v : pyval) : string :=
  match v with
  | PNone => "null"
  | PBool true => "true"
  | PBool false => "false"
  | PInt z => decimal z
  | PStr s => Str.dq ++ encode_chars s ++ Str.dq
  end.

End Json.

(** ** Exceptions

    [AnalyticalException] is the configuration error of [analytical.utils];
    the others are raised by Django and by Python itself. *)

Inductive exn : Type :=
| AnalyticalException (msg : string)
| TemplateSyntaxError (msg : string)
| ValueError (msg : string)
| KeyError (key : string)
| TypeError (msg : string).

Definition result (A : Type) : Type := (exn + A)%type.

Definition is_ok {A} (r : result A) : bool :=
  match r with inr _ => true | inl _ => false end.

(** ** The [%] formatting operator

    A format string is kept as its literal pieces and its conversion
    specifiers, in the order in which they appear in the source. *)

Inductive conv : Type := ConvS | ConvD.

Inductive piece : Type :=
| Lit (s : string)                   (* literal text *)
| Named (key : string) (c : conv)    (* %(key)s and %(key)d *)
| Pos (c : conv).                    (* %s and %d *)

Definition template := list piece.

Definition dict := list (string * pyval).

Definition convert (c : conv) (v : pyval) : result string :=
  match c, v with
  | ConvS, _ => inr (py_str v)
  | ConvD, PInt z => inr (decimal z)
  | ConvD, PBool b => inr (if b then "1" else "0")
  | ConvD, _ => inl (TypeError "%d format: a number is required")
  end.

Module Dict.

Fixpoint get (k : string) (d : dict) : option pyval :=
  match d with
  | [] => None
  | (k', v) :: rest => if String.eqb k k' then Some v else get k rest
  end.

(** [k in d] *)
Definition mem (k : string) (d : dict) : bool :=
  match get k d with Some _ => true | None => false end.

(** [d[k] = v]: an existing key keeps its place, a new key goes last. *)
Fixpoint set (k : string) (v : pyval) (d : dict) : dict :=
  match d with
  | [] => [(k, v)]
  | (k', v') :: rest =>
      if String.eqb k k' then (k', v) :: rest else (k', v') :: set k v rest
  end.

(** [del d[k]] *)
Fixpoint del (k : string) (d : dict) : dict :=
  match d with
  | [] => []
  | (k', v') :: rest =>
      if String.eqb k k' then rest else (k', v') :: del k rest
  end.

Definition keys (d : dict) : list string := map fst d.

End Dict.

(** [t % d] with a dictionary operand *)
Fixpoint fmt_dict (t : template) (d : dict) : result string :=
  match t with
  | [] => inr EmptyString
  | Lit s :: t' =>
      match fmt_dict t' d with
      | inr out => inr (s ++ out)
      | inl e => inl e
      end
  | Named k c :: t' =>
      match Dict.get k d with
      | None => inl (KeyError k)
      | Some v =>
          match convert c v with
          | inl e => inl e
          | inr sv =>
              match fmt_dict t' d with
              | inr out => inr (sv ++ out)
              | inl e => inl e
              end
          end
      end
  | Pos _ :: _ => inl (TypeError "format requires a mapping")
  end.

(** [t % (v1, ..., vn)], and [t % v] for a single value *)
Fixpoint fmt_args (t : template) (args : list pyval) : result string :=
  match t with
  | [] =>
      match args with
      | [] => inr EmptyString
      | _ :: _ =>
          inl (TypeError "not all arguments converted during string formatting")
      end
  | Lit s :: t' =>
      match fmt_args t' args with
      | inr out => inr (s ++ out)
      | inl e => inl e
      end
  | Pos c :: t' =>
      match args with
      | [] => inl (TypeError "not enough arguments for format string")
      | v :: args' =>
          match convert c v with
          | inl e => inl e
          | inr sv =>
              match fmt_args t' args' with
              | inr out => inr (sv ++ out)
              | inl e => inl e
              end
          end
      end
  | Named _ _ :: _ => inl (TypeError "format requires a mapping")
  end.

(** ** Regular expressions

    The two patterns of the module use character classes, concatenation,
    [+], [*] and the anchors [^] and [$].  [lang] is the set of strings a
    pattern matches in full; [matches] decides it by derivatives. *)

Module Re.

Inductive regex : Type :=
| Void
| Eps
| Class (p : ascii -> bool)
| Cat (r1 r2 : regex)
| Alt (r1 r2 : regex)
| Star (r : regex).

(** [r+] *)
Definition Plus (r : regex) : regex := Cat r (Star r).

(** a literal character *)
Definition Chr (c : ascii) : regex := Class (Ascii.eqb c).

Fixpoint char_in (c : ascii) (cs : string) : bool :=
  match cs with
  | EmptyString => false
  | String a rest => Ascii.eqb c a || char_in c rest
  end.

(** [[^cs]] *)
Definition NoneOf (cs : string) : regex := Class (fun c => negb (char_in c cs)).

Definition is_digit (c : ascii) : bool :=
  let n := nat_of_ascii c in ((48 <=? n) && (n <=? 57))%nat.

(** [\d] *)
Definition Digit : regex := Class is_digit.

Inductive lang : regex -> string -> Prop :=
| lang_eps : lang Eps EmptyString
| lang_class p c : p c = true -> lang (Class p) (String c EmptyString)
| lang_cat r1 r2 s1 s2 : lang r1 s1 -> lang r2 s2 -> lang (Cat r1 r2) (s1 ++ s2)
| lang_alt_l r1 r2 s : lang r1 s -> lang (Alt r1 r2) s
| lang_alt_r r1 r2 s : lang r2 s -> lang (Alt r1 r2) s
| lang_star_nil r : lang (Star r) EmptyString
| lang_star_app r s1 s2 : lang r s1 -> lang (Star r) s2 -> lang (Star r) (s1 ++ s2).

Fixpoint nullable (r : regex) : bool :=
  match r with
  | Void => false
  | Eps => true
  | Class _ => false
  | Cat r1 r2 => nullable r1 && nullable r2
  | Alt r1 r2 => nullable r1 || nullable r2
  | Star _ => true
  end.

(** Constructors that drop [Void] and [Eps] where they change nothing,
    so that derivatives stay small. *)
Definition cat (r1 r2 : regex) : regex :=
  match r1, r2 with
  | Void, _ => Void
  | _, Void => Void
  | Eps, _ => r2
  | _, _ => Cat r1 r2
  end.

Definition alt (r1 r2 : regex) : regex :=
  match r1, r2 with
  | Void, _ => r2
  | _, Void => r1
  | _, _ => Alt r1 r2
  end.

Fixpoint deriv (c : ascii) (r : regex) : regex :=
  match r with
  | Void => Void
  | Eps => Void
  | Class p => if p c then Eps else Void
  | Cat r1 r2 =>
      alt (cat (deriv c r1) r2) (if nullable r1 then deriv c r2 else Void)
  | Alt r1 r2 => alt (deriv c r1) (deriv c r2)
  | Star r1 => cat (deriv c r1) (Star r1)
  end.

Fixpoint matches (r : regex) (s : string) : bool :=
  match s with
  | EmptyString => nullable r
  | String c rest => matches (deriv c r) rest
  end.

(** [re.compile("^" r "$").search(s)].  Without the MULTILINE flag [^]
    matches at the start of the string only, and [$] matches at the end
    of the string and also just before a newline that ends the string. *)
Definition search_anchored (r : regex) (s : string) : bool :=
  matches (Cat r (Alt Eps (Chr "010"))) s.

(** Every character of [s] satisfies [q]. *)
Fixpoint all_chars (q : ascii -> bool) (s : string) : bool :=
  match s with
  | EmptyString => true
  | String c rest => q c && all_chars q rest
  end.

(** Every character class of [r] lies within [q]. *)
Fixpoint classes_within (q : ascii -> bool) (r : regex) : Prop :=
  match r with
  | Void | Eps => True
  | Class p => forall c, p c = true -> q c = true
  | Cat r1 r2 | Alt r1 r2 => classes_within q r1 /\ classes_within q r2
  | Star r1 => classes_within q r1
  end.

End Re.

(** domain name (characters separated by a dot), optional URI path, no slash *)
Definition DOMAINPATH_RE : Re.regex :=
  let label := Re.Plus (Re.NoneOf "./?#@:") in
  Re.Cat
    (Re.Plus (Re.Cat (Re.Plus (Re.Cat label (Re.Chr "."))) label))
    (Re.Star (Re.Cat (Re.Chr "/") (Re.Plus (Re.NoneOf "/?#@:")))).

(** numeric ID *)
Definition SITEID_RE : Re.regex := Re.Plus Re.Digit.

(** ** Effects

    A call returns a value or raises, and leaves the list of the calls it
    made to the collaborators of [analytical.utils]. *)

Record user : Type := { username : string; is_authenticated : bool }.

(** A template context, as the dictionaries that iterating over it yields,
    in that order. *)
Definition context := list dict.

Definition settings := string -> option string.

Inductive event : Type :=
| RequiredSetting (setting : string)
| UserFromContext
| Identity (u : user)
| InternalIp (prefix : string)
| DisableHtml (service : string).

Record outcome (A : Type) : Type := Outcome { log : list event; value : result A }.

Arguments Outcome {A} _ _.

Module M.

Definition ret {A} (a : A) : outcome A := Outcome [] (inr a).

Definition raise {A} (e : exn) : outcome A := Outcome [] (inl e).

Definition lift {A} (r : result A) : outcome A := Outcome [] r.

Definition call {A} (ev : event) (a : A) : outcome A := Outcome [ev] (inr a).

Definition bind {A B} (m : outcome A) (f : A -> outcome B) : outcome B :=
  match value m with
  | inl e => Outcome (log m) (inl e)
  | inr a => let r := f a in Outcome (log m ++ log r)%list (value r)
  end.

End M.

Declare Scope py_scope.
Delimit Scope py_scope with py.
Notation "x <- m ;; k" := (M.bind m (fun x => k))
  (at level 61, m at next level, right associativity) : py_scope.
Notation "' pat <- m ;; k" := (M.bind m (fun x => match x with pat => k end))
  (at level 61, pat pattern, m at next level, right associativity) : py_scope.
Local Open Scope py_scope.

(** One step of a computation in the monad. *)
Ltac run := cbn [M.bind M.lift M.ret M.call M.raise value log negb app].

(** [is_internal_ip], [get_user_from_context] and [get_identity] of
    [analytical.utils] are not part of the module, and the module only
    passes their results on: they are parameters. *)
Record utils : Type := {
  is_internal_ip : context -> string -> bool;
  get_user_from_context : context -> option user;
  get_identity : context -> string -> (user -> string) -> user -> pyval
}.

(** Modelled from the spec: [analytical.utils.get_required_setting] is not
    part of the module.  It fetches the named setting and requires it to
    match the pattern; an absent or non-matching setting is a configuration
    error, otherwise the result is the setting's string value. *)
Definition get_required_setting (st : settings) (setting : string)
    (value_re : Re.regex) (invalid_msg : string) : outcome string :=
  _ <- M.call (RequiredSetting setting) tt ;;
  match st setting with
  | None => M.raise (AnalyticalException (setting ++ " setting: not found"))
  | Some value =>
      if Re.search_anchored value_re value then M.ret value
      else M.raise (AnalyticalException (setting ++ " setting: " ++ invalid_msg))
  end.

(** Modelled from the spec: [analytical.utils.disable_html] is not part of
    the module.  It wraps the snippet in an HTML comment that names the
    service, so that the markup is inert. *)
Definition disable_html (html service : string) : string :=
  "<!-- " ++ service ++ " disabled on internal IP address" ++ Str.nl
  ++ html ++ Str.nl ++ "-->".

(** ** The module *)

Import Str.

Definition TRACKING_CODE : template :=
  [ Lit (nl
      ++ "<script type=" ++ dq ++ "text/javascript" ++ dq ++ ">" ++ nl
      ++ "  var _paq = _paq || [];" ++ nl
      ++ "  ");
    Named "pretrack" ConvS;
    Lit (nl
      ++ "  _paq.push(");
    Named "method" ConvS;
    Lit (");" ++ nl
      ++ "  _paq.push(['enableLinkTracking']);" ++ nl
      ++ "  (function() {" ++ nl
      ++ "    var u=((" ++ dq ++ "https:" ++ dq
      ++ " == document.location.protocol) ? " ++ dq ++ "https" ++ dq ++ " : "
      ++ dq ++ "http" ++ dq ++ ") + " ++ dq ++ "//");
    Named "url" ConvS;
    Lit ("/" ++ dq ++ ";" ++ nl
      ++ "    _paq.push(['setTrackerUrl', u+'piwik.php']);" ++ nl
      ++ "    _paq.push(['setSiteId', ");
    Named "siteid" ConvS;
    Lit ("]);" ++ nl
      ++ "    var d=document, g=d.createElement('script'), s=d.getElementsByTagName('script')[0]; g.type='text/javascript';" ++ nl
      ++ "    g.defer=true; g.async=true; g.src=u+'piwik.js'; s.parentNode.insertBefore(g,s);" ++ nl
      ++ "  })();" ++ nl
      ++ "</script>" ++ nl
      ++ "<noscript><p><img src=" ++ dq ++ "http://");
    Named "url" ConvS;
    Lit "/piwik.php?idsite=";
    Named "siteid" ConvS;
    Lit (dq ++ " style=" ++ dq ++ "border:0;" ++ dq ++ " alt=" ++ dq ++ dq
      ++ " /></p></noscript>" ++ nl) ].

(** The format strings of [_get_additional_calls] and of [piwik_search]. *)
Definition SET_USER_ID : template :=
  [ Lit ("_paq.push([" ++ dq ++ "setUserId" ++ dq ++ ", " ++ dq);
    Pos ConvS;
    Lit (dq ++ "]);" ++ nl) ].

Definition SET_DOCUMENT_TITLE : template :=
  [ Lit ("_paq.push([" ++ dq ++ "setDocumentTitle" ++ dq ++ ", " ++ dq);
    Pos ConvS;
    Lit (dq ++ "]);" ++ nl) ].

Definition SET_CUSTOM_VARIABLE : template :=
  [ Lit "_paq.push(['setCustomVariable', ";
    Named "index" ConvD;
    Lit ", '";
    Named "name" ConvS;
    Lit "', '";
    Named "value" ConvS;
    Lit "', '";
    Named "scope" ConvS;
    Lit ("']);" ++ nl) ].

Definition TRACK_SITE_SEARCH : template :=
  [ Lit "['trackSiteSearch', "; Pos ConvS; Lit ", "; Pos ConvS; Lit ", ";
    Pos ConvS; Lit "]" ].

Definition DOMAINPATH_MSG : string :=
  "must be a domain name, optionally followed "
  ++ "by an URI path, no trailing slash (e.g. "
  ++ "piwik.example.com or my.piwik.server/path)".

Definition SITEID_MSG : string := "must be a (string containing a) number".

Record PiwikNode : Type := { domain_path : string; site_id : string }.

(** [PiwikNode.__init__] *)
Definition PiwikNode_init (st : settings) : outcome PiwikNode :=
  domain_path <- get_required_setting st "PIWIK_DOMAIN_PATH" DOMAINPATH_RE
                   DOMAINPATH_MSG ;;
  site_id <- get_required_setting st "PIWIK_SITE_ID" SITEID_RE SITEID_MSG ;;
  M.ret {| domain_path := domain_path; site_id := site_id |}.

(** [piwik(parser, token)], on the result of [token.split_contents()] *)
Definition piwik (st : settings) (bits : list string) : outcome PiwikNode :=
  if (1 <? length bits)%nat
  then M.raise (TemplateSyntaxError
                  ("'" ++ hd EmptyString bits ++ "' takes no arguments"))
  else PiwikNode_init st.

Definition _identify (u : user) : string := username u.

(** The two nested loops that fill [vars]: the body of the inner loop, the
    inner loop over the items of one dictionary, and the outer loop. *)
Definition scan_item (vars : dict) (item : string * pyval) : dict :=
  let '(var, val) := item in
  if startswith var "piwik_" then Dict.set (drop 6 var) val vars else vars.

Definition scan_dict (vars : dict) (dict_ : dict) : dict :=
  fold_left scan_item dict_ vars.

Definition scan (ctx : context) : dict := fold_left scan_dict ctx [].

(** [name, scope = raw_name.split('_')] *)
Definition unpack2 (fields : list string) : result (string * string) :=
  match fields with
  | [name; scope] => inr (name, scope)
  | _ :: _ :: _ :: _ => inl (ValueError "too many values to unpack")
  | _ => inl (ValueError "not enough values to unpack")
  end.

(** The loop over [enumerate(vars.items())], started at [index] with the
    text gathered so far. *)
Fixpoint custom_variables (index : nat) (items : dict) (var_str : string)
  : result string :=
  match items with
  | [] => inr var_str
  | (raw_name, value) :: rest =>
      match unpack2 (split "_" raw_name) with
      | inl e => inl e
      | inr (name, scope) =>
          match fmt_dict SET_CUSTOM_VARIABLE
                  [ ("index", PInt (Z.of_nat index));
                    ("name", PStr name);
                    ("value", value);
                    ("scope", PStr scope) ] with
          | inl e => inl e
          | inr call => custom_variables (S index) rest (var_str ++ call)
          end
      end
  end.

(** The default [False] of an optional argument. *)
Definition or_false (arg : option pyval) : pyval :=
  match arg with Some v => v | None => PBool false end.

Section Module_.

Variable U : utils.

Definition _get_additional_calls (ctx : context) : outcome string :=
  let pretrack := EmptyString in
  let vars := scan ctx in
  '(pretrack, vars) <-
    (if negb (Dict.mem "userid" vars) then
       user <- M.call UserFromContext (get_user_from_context U ctx) ;;
       match user with
       | Some user =>
           if is_authenticated user then
             userid <- M.call (Identity user)
                         (get_identity U ctx "piwik" _identify user) ;;
             call <- M.lift (fmt_args SET_USER_ID [userid]) ;;
             M.ret (pretrack ++ call, vars)
           else M.ret (pretrack, vars)
       | None => M.ret (pretrack, vars)
       end
     else
       match Dict.get "userid" vars with
       | None => M.raise (KeyError "userid")
       | Some userid =>
           call <- M.lift (fmt_args SET_USER_ID [userid]) ;;
           M.ret (pretrack ++ call, Dict.del "userid" vars)
       end) ;;
  let var_str := EmptyString in
  '(var_str, vars) <-
    (if Dict.mem "document_title" vars then
       match Dict.get "document_title" vars with
       | None => M.raise (KeyError "document_title")
       | Some title =>
           call <- M.lift (fmt_args SET_DOCUMENT_TITLE [title]) ;;
           M.ret (var_str ++ call, Dict.del "document_title" vars)
       end
     else M.ret (var_str, vars)) ;;
  var_str <- M.lift (custom_variables 0 vars var_str) ;;
  let pretrack := var_str ++ pretrack in
  M.ret pretrack.

(** The internal-IP gate that ends both tags. *)
Definition gate (ctx : context) (html : string) : outcome string :=
  internal <- M.call (InternalIp "PIWIK") (is_internal_ip U ctx "PIWIK") ;;
  if (internal : bool)
  then M.call (DisableHtml "Piwik") (disable_html html "Piwik")
  else M.ret html.

(** [PiwikNode.render] *)
Definition render (self : PiwikNode) (ctx : context) : outcome string :=
  pretrack <- _get_additional_calls ctx ;;
  html <- M.lift (fmt_dict TRACKING_CODE
                    [ ("method", PStr "['trackPageView']");
                      ("url", PStr (domain_path self));
                      ("siteid", PStr (site_id self));
                      ("pretrack", PStr pretrack) ]) ;;
  gate ctx html.

(** [piwik_search(context, query, category=False, count=False)]; an
    omitted argument is [None] here. *)
Definition piwik_search (st : settings) (ctx : context) (query : pyval)
    (category count : option pyval) : outcome string :=
  let category := or_false category in
  let count := or_false count in
  domain_path <- get_required_setting st "PIWIK_DOMAIN_PATH" DOMAINPATH_RE
                   DOMAINPATH_MSG ;;
  site_id <- get_required_setting st "PIWIK_SITE_ID" SITEID_RE SITEID_MSG ;;
  pretrack <- _get_additional_calls ctx ;;
  method <- M.lift (fmt_args TRACK_SITE_SEARCH
                      [ PStr (Json.dumps query);
                        PStr (Json.dumps category);
                        PStr (Json.dumps count) ]) ;;
  html <- M.lift (fmt_dict TRACKING_CODE
                    [ ("method", PStr method);
                      ("url", PStr domain_path);
                      ("siteid", PStr site_id);
                      ("pretrack", PStr pretrack) ]) ;;
  gate ctx html.

End Module_.

(** ** The statements a render puts before the tracking call

    Section 4.3 of the specification describes the gathered text as a
    sequence of calls: at most one [setDocumentTitle], the indexed
    [setCustomVariable] calls, and at most one [setUserId].  [paq_call] and
    [js] say which text each call is; the theorems below compare the text
    that [_get_additional_calls] builds with these. *)

Inductive paq_call : Type :=
| SetUserId (userid : pyval)
| SetDocumentTitle (title : pyval)
| SetCustomVariable (index : nat) (name : string) (value : pyval) (scope : string).

Definition js (c : paq_call) : string :=
  match c with
  | SetUserId userid =>
      "_paq.push([" ++ dq ++ "setUserId" ++ dq ++ ", " ++ dq
      ++ py_str userid ++ dq ++ "]);" ++ nl
  | SetDocumentTitle title =>
      "_paq.push([" ++ dq ++ "setDocumentTitle" ++ dq ++ ", " ++ dq
      ++ py_str title ++ dq ++ "]);" ++ nl
  | SetCustomVariable index name value scope =>
      "_paq.push(['setCustomVariable', " ++ decimal (Z.of_nat index)
      ++ ", '" ++ name ++ "', '" ++ py_str value ++ "', '" ++ scope
      ++ "']);" ++ nl
  end.

Definition script (calls : list paq_call) : string :=
  fold_right (fun c out => js c ++ out) EmptyString calls.

Definition is_set_user_id (c : paq_call) : bool :=
  match c with SetUserId _ => true | _ => false end.

Definition is_set_custom_variable (c : paq_call) : bool :=
  match c with SetCustomVariable _ _ _ _ => true | _ => false end.

Definition call_index (c : paq_call) : option nat :=
  match c with SetCustomVariable index _ _ _ => Some index | _ => None end.

(** What is left in [vars] when the loop over the custom variables starts. *)
Definition custom_items (ctx : context) : dict :=
  Dict.del "document_title" (Dict.del "userid" (scan ctx)).

(** A key with exactly one underscore between name and scope. *)
Definition well_formed_key (raw_name : string) : bool :=
  (count "_" raw_name =? 1)%nat.

Definition well_formed (items : dict) : bool :=
  forallb (fun item => well_formed_key (fst item)) items.

(** The call of one custom variable, when its key splits in two. *)
Definition custom_call (index : nat) (item : string * pyval) : option paq_call :=
  match split "_" (fst item) with
  | [name; scope] => Some (SetCustomVariable index name (snd item) scope)
  | _ => None
  end.

Fixpoint custom_calls (index : nat) (items : dict) : option (list paq_call) :=
  match items with
  | [] => Some []
  | item :: rest =>
      match custom_call index item, custom_calls (S index) rest with
      | Some c, Some cs => Some (c :: cs)
      | _, _ => None
      end
  end.

Definition title_calls (ctx : context) : list paq_call :=
  match Dict.get "document_title" (scan ctx) with
  | Some title => [SetDocumentTitle title]
  | None => []
  end.

Definition user_calls (U : utils) (ctx : context) : list paq_call :=
  match Dict.get "userid" (scan ctx) with
  | Some userid => [SetUserId userid]
  | None =>
      match get_user_from_context U ctx with
      | Some u =>
          if is_authenticated u
          then [SetUserId (get_identity U ctx "piwik" _identify u)]
          else []
      | None => []
      end
  end.

(** The calls to the collaborators that gathering the statements makes. *)
Definition user_log (U : utils) (ctx : context) : list event :=
  if Dict.mem "userid" (scan ctx) then []
  else UserFromContext
       :: match get_user_from_context U ctx with
          | Some u => if is_authenticated u then [Identity u] else []
          | None => []
          end.

(** Some scope of the context binds [key] to [val]. *)
Definition binds (ctx : context) (key : string) (val : pyval) : Prop :=
  exists dict_, In dict_ ctx /\ In (key, val) dict_.

Definition no_piwik_variables (ctx : context) : Prop :=
  forall key val, binds ctx key val -> startswith key "piwik_" = false.

(** A setting that is present and matches its pattern. *)
Definition valid_setting (st : settings) (setting : string) (value_re : Re.regex)
  : bool :=
  match st setting with
  | Some value => Re.search_anchored value_re value
  | None => false
  end.

Definition is_configuration_error {A} (r : result A) : bool :=
  match r with inl (AnalyticalException _) => true | _ => false end.

Definition is_value_error {A} (r : result A) : bool :=
  match r with inl (ValueError _) => true | _ => false end.

Definition is_required_setting (ev : event) : bool :=
  match ev with RequiredSetting _ => true | _ => false end.

Definition is_identity (ev : event) : bool :=
  match ev with Identity _ => true | _ => false end.

(** ** Markup outside HTML comments

    [live st s] is the text of [s] that a browser does not read as a
    comment, read from the state [st] of the HTML tokenizer.  A comment
    starts at [<!--]; it ends at [-->] and at [--!>], and right at the
    start also at [>] and [->].  Only comments are followed: text in the
    [Data] state is taken as it is. *)
Inductive markup_state : Type :=
| Data                      (* outside a comment *)
| CommentOpen (left : nat)  (* in [<!--], with [left] + 1 characters to pass *)
| CommentStart              (* just after [<!--] *)
| CommentStartDash          (* after [<!--] and one dash *)
| Comment                   (* in the text of a comment *)
| CommentEndDash            (* in a comment, after one dash *)
| CommentEnd                (* in a comment, after two dashes or more *)
| CommentEndBang.           (* in a comment, after two dashes and a bang *)

Definition comment_step (st : markup_state) (c : ascii) : markup_state :=
  let dash := Ascii.eqb c "-" in
  let gt := Ascii.eqb c ">" in
  let bang := Ascii.eqb c "!" in
  match st with
  | CommentStart =>
      if dash then CommentStartDash else if gt then Data else Comment
  | CommentStartDash =>
      if dash then CommentEnd else if gt then Data else Comment
  | Comment => if dash then CommentEndDash else Comment
  | CommentEndDash => if dash then CommentEnd else Comment
  | CommentEnd =>
      if gt then Data else if bang then CommentEndBang
      else if dash then CommentEnd else Comment
  | CommentEndBang =>
      if dash then CommentEndDash else if gt then Data else Comment
  | Data | CommentOpen _ => st
  end.

Fixpoint live (st : markup_state) (s : string) : string :=
  match s with
  | EmptyString => EmptyString
  | String c rest =>
      match st with
      | Data =>
          if prefix "<!--" s then live (CommentOpen 2) rest
          else String c (live Data rest)
      | CommentOpen (S k) => live (CommentOpen k) rest
      | CommentOpen O => live CommentStart rest
      | _ => live (comment_step st c) rest
      end
  end.

Definition has_live_script_tag (html : string) : bool :=
  contains "<script" (live Data html).

(** The characters of a comment end that a state has seen. *)
Definition pending (st : markup_state) : string :=
  match st with
  | CommentEndDash => "-"
  | CommentEnd => "--"
  | CommentEndBang => "--!"
  | _ => EmptyString
  end.

Definition in_comment_text (st : markup_state) : bool :=
  match st with
  | Comment | CommentEndDash | CommentEnd | CommentEndBang => true
  | _ => false
  end.

(** The tracking call of the search tag. *)
Definition track_site_search (query category count : pyval) : string :=
  "['trackSiteSearch', " ++ Json.dumps query ++ ", " ++ Json.dumps category
  ++ ", " ++ Json.dumps count ++ "]".

(** [TRACKING_CODE] with its four values in place: the text up to the
    pre-track statements, the statements, the tracking call, and the rest. *)
Definition snippet_open : string :=
  nl ++ "<script type=" ++ dq ++ "text/javascript" ++ dq ++ ">" ++ nl
  ++ "  var _paq = _paq || [];" ++ nl
  ++ "  ".

Definition snippet_close (url siteid : string) : string :=
  nl
  ++ "  _paq.push(['enableLinkTracking']);" ++ nl
  ++ "  (function() {" ++ nl
  ++ "    var u=((" ++ dq ++ "https:" ++ dq
  ++ " == document.location.protocol) ? " ++ dq ++ "https" ++ dq ++ " : "
  ++ dq ++ "http" ++ dq ++ ") + " ++ dq ++ "//" ++ url ++ "/" ++ dq ++ ";" ++ nl
  ++ "    _paq.push(['setTrackerUrl', u+'piwik.php']);" ++ nl
  ++ "    _paq.push(['setSiteId', " ++ siteid ++ "]);" ++ nl
  ++ "    var d=document, g=d.createElement('script'), s=d.getElementsByTagName('script')[0]; g.type='text/javascript';" ++ nl
  ++ "    g.defer=true; g.async=true; g.src=u+'piwik.js'; s.parentNode.insertBefore(g,s);" ++ nl
  ++ "  })();" ++ nl
  ++ "</script>" ++ nl
  ++ "<noscript><p><img src=" ++ dq ++ "http://" ++ url ++ "/piwik.php?idsite="
  ++ siteid ++ dq ++ " style=" ++ dq ++ "border:0;" ++ dq ++ " alt=" ++ dq ++ dq
  ++ " /></p></noscript>" ++ nl.

Definition snippet (pretrack method url siteid : string) : string :=
  snippet_open ++ pretrack ++ nl ++ "  _paq.push(" ++ method ++ ");"
  ++ snippet_close url siteid.

(** What the gate returns for the formatted snippet [html]. *)
Definition gated (U : utils) (ctx : context) (html : string) : string :=
  if is_internal_ip U ctx "PIWIK" then disable_html html "Piwik" else html.

Definition gate_log (U : utils) (ctx : context) : list event :=
  InternalIp "PIWIK"
  :: if is_internal_ip U ctx "PIWIK" then [DisableHtml "Piwik"] else [].

(** What a tag does once its settings are read: the statements are
    gathered, the template is filled and the gate is applied. *)
Definition tag_result (U : utils) (ctx : context) (method url siteid : string)
  : outcome string :=
  match custom_variables 0 (custom_items ctx) (script (title_calls ctx)) with
  | inl e => Outcome (user_log U ctx) (inl e)
  | inr var_str =>
      Outcome (user_log U ctx ++ gate_log U ctx)%list
        (inr (gated U ctx
                (snippet (var_str ++ script (user_calls U ctx)) method url siteid)))
  end.

(** ** Concrete inputs *)

Module Examples.

(** the settings of the first testable property *)
Definition example_settings : settings :=
  fun setting =>
    if String.eqb setting "PIWIK_DOMAIN_PATH" then Some "example.com"
    else if String.eqb setting "PIWIK_SITE_ID" then Some "5"
    else None.

Definition scheme_settings : settings :=
  fun setting =>
    if String.eqb setting "PIWIK_DOMAIN_PATH" then Some "http://x.com"
    else if String.eqb setting "PIWIK_SITE_ID" then Some "5"
    else None.

Definition word_settings : settings :=
  fun setting =>
    if String.eqb setting "PIWIK_DOMAIN_PATH" then Some "example.com"
    else if String.eqb setting "PIWIK_SITE_ID" then Some "five"
    else None.

Definition example_node : PiwikNode :=
  {| domain_path := "example.com"; site_id := "5" |}.

Definition alice : user := {| username := "alice"; is_authenticated := true |}.

(** an anonymous visitor from outside *)
Definition outside : utils :=
  {| is_internal_ip := fun _ _ => false;
     get_user_from_context := fun _ => None;
     get_identity := fun _ _ identity_func u => PStr (identity_func u) |}.

(** a logged-in visitor from outside *)
Definition member : utils :=
  {| is_internal_ip := fun _ _ => false;
     get_user_from_context := fun _ => Some alice;
     get_identity := fun _ _ identity_func u => PStr (identity_func u) |}.

(** a logged-in visitor from an internal address *)
Definition inside : utils :=
  {| is_internal_ip := fun _ _ => true;
     get_user_from_context := fun _ => Some alice;
     get_identity := fun _ _ identity_func u => PStr (identity_func u) |}.

Definition plain_context : context := [[("title", PStr "Home")]].

Definition userid_context : context :=
  [[("piwik_userid", PStr "42"); ("piwik_section_page", PStr "news")]].

Definition title_context : context :=
  [[("piwik_document_title", PStr "Home")];
   [("piwik_section_page", PStr "news"); ("piwik_lang_visit", PStr "en")]].

Definition no_underscore_context : context := [[("piwik_section", PStr "news")]].

Definition two_underscores_context : context := [[("piwik_a_b_c", PStr "news")]].

(** a title that closes an HTML comment *)
Definition closing_context : context :=
  [[("piwik_document_title", PStr "--><script>alert(1)</script><!--")]].



End Examples.

(** ** Registering the node with the [analytical] tags *)

(** The class object that [contribute_to_analytical] hands over. *)
Inductive node_class : Type := PiwikNodeClass.

(** [contribute_to_analytical(add_node)].  [add_node] belongs to the
    caller and acts on a registry of the caller, of any type [R]. *)
Definition contribute_to_analytical (R : Type) (st : settings)
    (add_node : string -> node_class -> R -> R) (registry : R) : outcome R :=
  _ <- PiwikNode_init st ;;
  M.ret (add_node "body_bottom" PiwikNodeClass registry).

(** ** The shape of the strings a pattern matches *)

Module Shape.

Import Re.

Fixpoint last_char (s : string) : option ascii :=
  match s with
  | EmptyString => None
  | String c rest =>
      match last_char rest with
      | None => Some c
      | Some d => Some d
      end
  end.

(** Every class of [r] that can match the last character of a string lies
    within [q]. *)
Fixpoint last_within (q : ascii -> bool) (r : regex) : Prop :=
  match r with
  | Void | Eps => True
  | Class p => forall c, p c = true -> q c = true
  | Cat r1 r2 => last_within q r2 /\ (nullable r2 = true -> last_within q r1)
  | Alt r1 r2 => last_within q r1 /\ last_within q r2
  | Star r1 => last_within q r1
  end.

End Shape.

(** A variable that the scan takes up. *)
Definition is_piwik_item (item : string * pyval) : bool :=
  startswith (fst item) "piwik_".

(** The key a custom variable call was made from. *)
Definition call_key (c : paq_call) : string :=
  match c with
  | SetCustomVariable _ name _ scope => name ++ "_" ++ scope
  | _ => EmptyString
  end.

(** The characters from space to tilde. *)
Definition printable (c : ascii) : bool :=
  let n := nat_of_ascii c in ((32 <=? n) && (n <=? 126))%nat.

(** * Facts about strings *)

Module StrFacts.

Lemma app_nil_r (s : string) : s ++ EmptyString = s.
Proof. induction s as [|c s IH]; simpl; [reflexivity | now rewrite IH]. Qed.

Lemma app_assoc (a b c : string) : (a ++ b) ++ c = a ++ (b ++ c).
Proof. induction a as [|x a IH]; simpl; [reflexivity | now rewrite IH]. Qed.

Lemma app_empty (a b : string) :
  a ++ b = EmptyString -> a = EmptyString /\ b = EmptyString.
Proof. destruct a; simpl; [auto | discriminate]. Qed.

Lemma prefix_app (p a b : string) :
  prefix p a = true -> prefix p (a ++ b) = true.
Proof.
  revert a; induction p as [|c p IH]; intros a H; [reflexivity|].
  destruct a as [|x a]; simpl in *; [discriminate|].
  apply andb_true_iff in H as [-> H]. exact (IH _ H).
Qed.

Lemma contains_app_l (n a b : string) :
  contains n a = true -> contains n (a ++ b) = true.
Proof.
  induction a as [|x a IH]; simpl; intros H.
  - rewrite orb_false_r in H.
    destruct n; [destruct b; reflexivity | discriminate].
  - apply orb_true_iff in H as [H | H].
    + change (String x (a ++ b)) with (String x a ++ b).
      now rewrite (prefix_app _ _ _ H).
    + rewrite (IH H). apply orb_true_r.
Qed.

Lemma contains_app_r (n a b : string) :
  contains n b = true -> contains n (a ++ b) = true.
Proof.
  induction a as [|x a IH]; simpl; intros H; [exact H|].
  rewrite (IH H). apply orb_true_r.
Qed.

Lemma prefix_self_app (p s : string) : prefix p (p ++ s) = true.
Proof.
  induction p as [|c p IH]; simpl; [reflexivity|].
  now rewrite Ascii.eqb_refl.
Qed.

Lemma contains_here (n s : string) : contains n (n ++ s) = true.
Proof.
  destruct n as [|c n]; [destruct s; reflexivity|].
  change (String c n ++ s) with (String c (n ++ s)).
  cbn [contains].
  change (String c (n ++ s)) with (String c n ++ s).
  now rewrite prefix_self_app.
Qed.

Lemma startswith_drop (s p : string) :
  startswith s p = true -> s = p ++ drop (String.length p) s.
Proof.
  unfold startswith. revert s; induction p as [|c p IH]; intros s H.
  - reflexivity.
  - destruct s as [|x s]; simpl in *; [discriminate|].
    apply andb_true_iff in H as [E H]. apply Ascii.eqb_eq in E as ->.
    now rewrite <- (IH _ H).
Qed.

Lemma startswith_app (p s : string) : startswith (p ++ s) p = true.
Proof. apply prefix_self_app. Qed.

Lemma drop_app (p s : string) : drop (String.length p) (p ++ s) = s.
Proof. induction p as [|c p IH]; simpl; [reflexivity | exact IH]. Qed.

Lemma split_length (c : ascii) (s : string) :
  List.length (split c s) = S (count c s).
Proof.
  induction s as [|a s IH]; simpl; [reflexivity|].
  destruct (Ascii.eqb a c); simpl; [now rewrite IH|].
  destruct (split c s); simpl in *; [discriminate | exact IH].
Qed.

End StrFacts.

(** * The matcher decides the language of a pattern *)

Module ReFacts.

Import Re StrFacts.

Lemma lang_void (s : string) : ~ lang Void s.
Proof. intros H; inversion H. Qed.

Lemma lang_eps_inv (s : string) : lang Eps s -> s = EmptyString.
Proof. intros H; now inversion H. Qed.

Lemma lang_class_inv p (s : string) :
  lang (Class p) s -> exists c, s = String c EmptyString /\ p c = true.
Proof. intros H; inversion H; subst; eauto. Qed.

Lemma lang_cat_inv r1 r2 (s : string) :
  lang (Cat r1 r2) s -> exists s1 s2, s = s1 ++ s2 /\ lang r1 s1 /\ lang r2 s2.
Proof. intros H; inversion H; subst; eauto. Qed.

Lemma lang_alt_inv r1 r2 (s : string) :
  lang (Alt r1 r2) s -> lang r1 s \/ lang r2 s.
Proof. intros H; inversion H; subst; auto. Qed.

Lemma nullable_lang (r : regex) : nullable r = true <-> lang r EmptyString.
Proof.
  induction r as [| |p|r1 IH1 r2 IH2|r1 IH1 r2 IH2|r IH]; simpl.
  - split; [discriminate | intros H; inversion H].
  - split; [constructor | reflexivity].
  - split; [discriminate | intros H; inversion H].
  - rewrite andb_true_iff, IH1, IH2. split.
    + intros [H1 H2]. exact (lang_cat H1 H2).
    + intros H. apply lang_cat_inv in H as (s1 & s2 & E & H1 & H2).
      symmetry in E. apply app_empty in E as [-> ->]. auto.
  - rewrite orb_true_iff, IH1, IH2. split.
    + intros [H | H]; [now apply lang_alt_l | now apply lang_alt_r].
    + apply lang_alt_inv.
  - split; [constructor | reflexivity].
Qed.

Lemma cat_lang r1 r2 (s : string) : lang (cat r1 r2) s <-> lang (Cat r1 r2) s.
Proof.
  assert (V1 : forall r, lang (Cat Void r) s <-> lang Void s).
  { intros r; split; intros H; [|inversion H].
    apply lang_cat_inv in H as (? & ? & _ & H & _); inversion H. }
  assert (V2 : forall r, lang (Cat r Void) s <-> lang Void s).
  { intros r; split; intros H; [|inversion H].
    apply lang_cat_inv in H as (? & ? & _ & _ & H); inversion H. }
  assert (E : forall r, lang (Cat Eps r) s <-> lang r s).
  { intros r; split; intros H.
    - apply lang_cat_inv in H as (s1 & s2 & -> & H1 & H2).
      apply lang_eps_inv in H1 as ->. exact H2.
    - exact (lang_cat lang_eps H). }
  destruct r1, r2; simpl;
    rewrite ?V1, ?V2, ?E; reflexivity.
Qed.

Lemma alt_lang r1 r2 (s : string) : lang (alt r1 r2) s <-> lang (Alt r1 r2) s.
Proof.
  assert (V1 : forall r, lang (Alt Void r) s <-> lang r s).
  { intros r; split; intros H; [|now apply lang_alt_r].
    apply lang_alt_inv in H as [H | H]; [inversion H | exact H]. }
  assert (V2 : forall r, lang (Alt r Void) s <-> lang r s).
  { intros r; split; intros H; [|now apply lang_alt_l].
    apply lang_alt_inv in H as [H | H]; [exact H | inversion H]. }
  destruct r1, r2; simpl; rewrite ?V1, ?V2; reflexivity.
Qed.

Lemma lang_star_cons r c (s : string) :
  lang (Star r) (String c s) ->
  exists s1 s2, s = s1 ++ s2 /\ lang r (String c s1) /\ lang (Star r) s2.
Proof.
  intros H. remember (Star r) as r' eqn:Er. remember (String c s) as t eqn:Et.
  revert c s Et.
  induction H as [| | | | | |r0 s1 s2 H1 _ H2 IH2]; try discriminate.
  injection Er as ->. intros c s Et.
  destruct s1 as [|x s1]; simpl in Et.
  - exact (IH2 eq_refl _ _ Et).
  - injection Et as Ex Es. subst x s. eauto.
Qed.

Lemma deriv_lang (r : regex) c (s : string) :
  lang (deriv c r) s <-> lang r (String c s).
Proof.
  revert s.
  induction r as [| |p|r1 IH1 r2 IH2|r1 IH1 r2 IH2|r IH]; intros s; simpl.
  - split; intros H; inversion H.
  - split; intros H; inversion H.
  - split; intros H.
    + destruct (p c) eqn:E; [|inversion H].
      apply lang_eps_inv in H as ->. now constructor.
    + apply lang_class_inv in H as (c' & E & Hp).
      injection E as <- ->. rewrite Hp. constructor.
  - rewrite alt_lang. split; intros H.
    + apply lang_alt_inv in H as [H | H].
      * apply cat_lang, lang_cat_inv in H as (s1 & s2 & -> & H1 & H2).
        apply IH1 in H1. exact (lang_cat H1 H2).
      * destruct (nullable r1) eqn:N; [|inversion H].
        apply nullable_lang in N. apply IH2 in H. exact (lang_cat N H).
    + apply lang_cat_inv in H as (s1 & s2 & E & H1 & H2).
      destruct s1 as [|x s1]; simpl in E.
      * subst s2. apply lang_alt_r.
        apply nullable_lang in H1. rewrite H1. now apply IH2.
      * injection E as <- ->. apply lang_alt_l, cat_lang.
        apply IH1 in H1. exact (lang_cat H1 H2).
  - rewrite alt_lang. split; intros H.
    + apply lang_alt_inv in H as [H | H];
        [apply lang_alt_l, IH1 | apply lang_alt_r, IH2]; exact H.
    + apply lang_alt_inv in H as [H | H];
        [apply lang_alt_l, IH1 | apply lang_alt_r, IH2]; exact H.
  - rewrite cat_lang. split; intros H.
    + apply lang_cat_inv in H as (s1 & s2 & -> & H1 & H2).
      apply IH in H1. exact (lang_star_app H1 H2).
    + apply lang_star_cons in H as (s1 & s2 & -> & H1 & H2).
      apply IH in H1. exact (lang_cat H1 H2).
Qed.

Lemma matches_lang (r : regex) (s : string) : matches r s = true <-> lang r s.
Proof.
  revert r; induction s as [|c s IH]; intros r; simpl.
  - apply nullable_lang.
  - rewrite IH. apply deriv_lang.
Qed.

(** A pattern between [^] and [$] is found in [s] when it matches all of
    [s], or all of [s] but a final newline. *)
Lemma search_anchored_spec (r : regex) (s : string) :
  search_anchored r s = true <->
  exists p, lang r p /\ (s = p \/ s = p ++ nl).
Proof.
  unfold search_anchored. rewrite matches_lang. split.
  - intros H. apply lang_cat_inv in H as (p & e & -> & Hp & He).
    exists p. split; [exact Hp|].
    apply lang_alt_inv in He as [He | He].
    + apply lang_eps_inv in He as ->. left. now rewrite app_nil_r.
    + apply lang_class_inv in He as (c & -> & Hc).
      apply Ascii.eqb_eq in Hc as <-. now right.
  - intros (p & Hp & [-> | ->]).
    + rewrite <- (app_nil_r p). apply (lang_cat Hp). apply lang_alt_l. constructor.
    + apply (lang_cat Hp). apply lang_alt_r. constructor. apply Ascii.eqb_refl.
Qed.

End ReFacts.

(** * Dictionaries and the scan of the context *)

Module DictFacts.

Import Dict.

Lemma get_set_eq k v (d : dict) : get k (set k v d) = Some v.
Proof.
  induction d as [|[k' v'] d IH]; simpl.
  - now rewrite String.eqb_refl.
  - destruct (String.eqb k k') eqn:E; simpl; rewrite E; [reflexivity | exact IH].
Qed.

Lemma get_set_ne k k' v (d : dict) : k <> k' -> get k (set k' v d) = get k d.
Proof.
  intros N. induction d as [|[k0 v0] d IH]; simpl.
  - apply String.eqb_neq in N. now rewrite N.
  - destruct (String.eqb k' k0) eqn:E; simpl.
    + apply String.eqb_eq in E as <-.
      apply String.eqb_neq in N. now rewrite N.
    + now rewrite IH.
Qed.

Lemma get_del_ne k k' (d : dict) : k <> k' -> get k (del k' d) = get k d.
Proof.
  intros N. induction d as [|[k0 v0] d IH]; simpl; [reflexivity|].
  destruct (String.eqb k' k0) eqn:E; simpl.
  - apply String.eqb_eq in E as <-.
    apply String.eqb_neq in N. now rewrite N.
  - now rewrite IH.
Qed.

Lemma del_absent k (d : dict) : get k d = None -> del k d = d.
Proof.
  induction d as [|[k0 v0] d IH]; simpl; [reflexivity|].
  destruct (String.eqb k k0); [discriminate|].
  intros H. now rewrite (IH H).
Qed.

Lemma get_in k v (d : dict) : get k d = Some v -> In (k, v) d.
Proof.
  induction d as [|[k0 v0] d IH]; simpl; [discriminate|].
  destruct (String.eqb k k0) eqn:E.
  - apply String.eqb_eq in E as <-. intros [= <-]. now left.
  - intros H. right. exact (IH H).
Qed.

Lemma in_get k v (d : dict) : In (k, v) d -> exists v', get k d = Some v'.
Proof.
  induction d as [|[k0 v0] d IH]; simpl; [contradiction|].
  intros [[= -> ->] | H].
  - rewrite String.eqb_refl. eauto.
  - destruct (String.eqb k k0); eauto.
Qed.

Lemma in_del k k' v (d : dict) : k <> k' -> In (k, v) d -> In (k, v) (del k' d).
Proof.
  intros N. induction d as [|[k0 v0] d IH]; simpl; [contradiction|].
  destruct (String.eqb k' k0) eqn:E.
  - apply String.eqb_eq in E as <-.
    intros [[= E _] | H]; [congruence | exact H].
  - intros [H | H]; [now left | right; exact (IH H)].
Qed.

Lemma mem_get k (d : dict) : mem k d = true <-> exists v, get k d = Some v.
Proof.
  unfold mem. destruct (get k d); split; eauto; try discriminate.
  intros [v H]; discriminate.
Qed.

End DictFacts.

Module ScanFacts.

Import Dict DictFacts StrFacts.

Lemma scan_dict_cons vars item dict_ :
  scan_dict vars (item :: dict_) = scan_dict (scan_item vars item) dict_.
Proof. reflexivity. Qed.

Lemma scan_item_eq vars var val :
  scan_item vars (var, val)
  = if startswith var "piwik_" then Dict.set (drop 6 var) val vars else vars.
Proof. reflexivity. Qed.

(** A variable of [vars] comes from a scope of the context. *)
Lemma scan_dict_origin k v dict_ : forall vars,
  get k (scan_dict vars dict_) = Some v ->
  get k vars = Some v \/ In ("piwik_" ++ k, v) dict_.
Proof.
  induction dict_ as [|[var val] dict_ IH]; intros vars H; [now left|].
  rewrite scan_dict_cons in H. apply IH in H as [H | H]; [|right; now right].
  rewrite scan_item_eq in H. destruct (startswith var "piwik_") eqn:P; [|now left].
  destruct (string_dec k (drop 6 var)) as [->|N].
  - rewrite get_set_eq in H. injection H as ->.
    right; left. now rewrite (startswith_drop _ _ P) at 1.
  - rewrite (get_set_ne _ _ N) in H. now left.
Qed.

Lemma scan_dict_keeps k dict_ : forall vars,
  (exists v, get k vars = Some v) ->
  exists v, get k (scan_dict vars dict_) = Some v.
Proof.
  induction dict_ as [|[var val] dict_ IH]; intros vars H; [exact H|].
  rewrite scan_dict_cons. apply IH. rewrite scan_item_eq.
  destruct (startswith var "piwik_"); [|exact H].
  destruct (string_dec k (drop 6 var)) as [->|N].
  - rewrite get_set_eq. eauto.
  - now rewrite (get_set_ne _ _ N).
Qed.

Lemma scan_dict_finds k v dict_ : forall vars,
  In ("piwik_" ++ k, v) dict_ ->
  exists v', get k (scan_dict vars dict_) = Some v'.
Proof.
  induction dict_ as [|[var val] dict_ IH]; intros vars H; [contradiction|].
  rewrite scan_dict_cons. destruct H as [[= -> ->] | H]; [|now apply IH].
  apply scan_dict_keeps. rewrite scan_item_eq.
  cbn [startswith prefix drop Ascii.eqb Bool.eqb andb].
  rewrite get_set_eq. eauto.
Qed.

Lemma scan_dict_skips dict_ : forall vars,
  (forall key val, In (key, val) dict_ -> startswith key "piwik_" = false) ->
  scan_dict vars dict_ = vars.
Proof.
  induction dict_ as [|[var val] dict_ IH]; intros vars H; [reflexivity|].
  rewrite scan_dict_cons, scan_item_eq. rewrite (H var val (or_introl eq_refl)).
  apply IH. intros key v Hin. apply (H key v). now right.
Qed.

Lemma fold_scan_origin k v ctx : forall vars,
  get k (fold_left scan_dict ctx vars) = Some v ->
  get k vars = Some v \/ binds ctx ("piwik_" ++ k) v.
Proof.
  induction ctx as [|dict_ ctx IH]; intros vars H; [now left|].
  simpl in H. apply IH in H as [H | (d & Hd & Hin)].
  - apply scan_dict_origin in H as [H | H]; [now left|].
    right. exists dict_. split; [now left | exact H].
  - right. exists d. split; [now right | exact Hin].
Qed.

Lemma fold_scan_keeps k ctx : forall vars,
  (exists v, get k vars = Some v) ->
  exists v, get k (fold_left scan_dict ctx vars) = Some v.
Proof.
  induction ctx as [|dict_ ctx IH]; intros vars H; [exact H|].
  simpl. apply IH. now apply scan_dict_keeps.
Qed.

Lemma scan_origin k v ctx :
  get k (scan ctx) = Some v -> binds ctx ("piwik_" ++ k) v.
Proof.
  intros H. apply fold_scan_origin in H as [H | H]; [discriminate | exact H].
Qed.

Lemma scan_finds k v ctx :
  binds ctx ("piwik_" ++ k) v -> exists v', get k (scan ctx) = Some v'.
Proof.
  intros (d & Hd & Hin). unfold scan. generalize (@nil (string * pyval)).
  induction ctx as [|dict_ ctx IH]; intros vars; [contradiction|].
  simpl. destruct Hd as [-> | Hd]; [|now apply IH].
  apply fold_scan_keeps. now apply scan_dict_finds with (v := v).
Qed.

Lemma scan_nothing ctx : no_piwik_variables ctx -> scan ctx = [].
Proof.
  unfold scan. generalize (@nil (string * pyval)).
  induction ctx as [|dict_ ctx IH]; intros vars H; [reflexivity|].
  simpl. rewrite scan_dict_skips.
  - apply IH. intros key val (d & Hd & Hin). apply (H key val).
    exists d. split; [now right | exact Hin].
  - intros key val Hin. apply (H key val). exists dict_. split; [now left | exact Hin].
Qed.

End ScanFacts.

(** * The text of the calls *)

Module CallFacts.

Import Dict DictFacts StrFacts.

Lemma fmt_set_user_id userid :
  fmt_args SET_USER_ID [userid] = inr (js (SetUserId userid)).
Proof. reflexivity. Qed.

Lemma fmt_set_document_title title :
  fmt_args SET_DOCUMENT_TITLE [title] = inr (js (SetDocumentTitle title)).
Proof. reflexivity. Qed.

Lemma fmt_set_custom_variable index name value scope :
  fmt_dict SET_CUSTOM_VARIABLE
    [ ("index", PInt (Z.of_nat index)); ("name", PStr name);
      ("value", value); ("scope", PStr scope) ]
  = inr (js (SetCustomVariable index name value scope)).
Proof. reflexivity. Qed.

Lemma fmt_track_site_search query category count :
  fmt_args TRACK_SITE_SEARCH
    [ PStr (Json.dumps query); PStr (Json.dumps category);
      PStr (Json.dumps count) ]
  = inr (track_site_search query category count).
Proof. reflexivity. Qed.

Lemma fmt_tracking_code pretrack method url siteid :
  fmt_dict TRACKING_CODE
    [ ("method", PStr method); ("url", PStr url); ("siteid", PStr siteid);
      ("pretrack", PStr pretrack) ]
  = inr (snippet pretrack method url siteid).
Proof. reflexivity. Qed.

Lemma script_app (a b : list paq_call) :
  script (a ++ b)%list = script a ++ script b.
Proof.
  induction a as [|c a IH]; simpl; [reflexivity|].
  now rewrite IH, app_assoc.
Qed.

Lemma custom_call_unpack index raw_name value :
  match custom_call index (raw_name, value) with
  | Some c =>
      exists name scope,
        unpack2 (split "_" raw_name) = inr (name, scope)
        /\ c = SetCustomVariable index name value scope
  | None => is_value_error (unpack2 (split "_" raw_name)) = true
  end.
Proof.
  unfold custom_call; simpl fst; simpl snd.
  destruct (split "_" raw_name) as [|a [|b [|c l]]]; simpl; eauto.
Qed.

Lemma custom_call_well_formed index item :
  custom_call index item <> None <-> well_formed_key (fst item) = true.
Proof.
  unfold custom_call, well_formed_key.
  pose proof (split_length "_" (fst item)) as L.
  destruct (split "_" (fst item)) as [|a [|b [|c l]]]; simpl in L;
    [discriminate L | | |];
    injection L as L; rewrite <- L; simpl; split; congruence.
Qed.

Lemma custom_calls_well_formed items : forall index,
  custom_calls index items <> None <-> well_formed items = true.
Proof.
  induction items as [|item items IH]; intros index; simpl.
  - split; [reflexivity | discriminate].
  - rewrite andb_true_iff, <- (custom_call_well_formed index), <- (IH (S index)).
    destruct (custom_call index item), (custom_calls (S index) items);
      split; intros H; try (split; congruence); try congruence;
      destruct H; congruence.
Qed.

(** The text of the loop is the text of its calls, after what was
    gathered before. *)
Lemma custom_variables_calls items : forall index var_str calls,
  custom_calls index items = Some calls ->
  custom_variables index items var_str = inr (var_str ++ script calls).
Proof.
  induction items as [|[raw_name value] items IH]; intros index var_str calls H.
  - injection H as <-. simpl. now rewrite app_nil_r.
  - simpl in H. pose proof (custom_call_unpack index raw_name value) as P.
    destruct (custom_call index (raw_name, value)) as [c|]; [|discriminate].
    destruct (custom_calls (S index) items) as [cs|] eqn:E; [|discriminate].
    injection H as <-. destruct P as (name & scope & Hu & ->).
    cbn [custom_variables]. rewrite Hu, fmt_set_custom_variable.
    rewrite (IH _ _ _ E). cbn [script fold_right]. now rewrite app_assoc.
Qed.

(** A key that does not split in two ends the loop with a [ValueError]. *)
Lemma custom_variables_fails items : forall index var_str,
  custom_calls index items = None ->
  is_value_error (custom_variables index items var_str) = true.
Proof.
  induction items as [|[raw_name value] items IH]; intros index var_str H.
  - discriminate.
  - simpl in H. pose proof (custom_call_unpack index raw_name value) as P.
    cbn [custom_variables].
    destruct (custom_call index (raw_name, value)) as [c|].
    + destruct P as (name & scope & Hu & ->).
      rewrite Hu, fmt_set_custom_variable.
      destruct (custom_calls (S index) items) eqn:E; [discriminate|].
      now apply IH.
    + destruct (unpack2 (split "_" raw_name)) as [e|[name scope]];
        [exact P | discriminate].
Qed.

Lemma custom_calls_index items : forall index calls,
  custom_calls index items = Some calls ->
  map call_index calls = map Some (seq index (List.length items)).
Proof.
  induction items as [|item items IH]; intros index calls H; simpl in H.
  - now injection H as <-.
  - destruct (custom_call index item) as [c|] eqn:Ec; [|discriminate].
    destruct (custom_calls (S index) items) as [cs|] eqn:E; [|discriminate].
    injection H as <-. simpl. rewrite (IH _ _ E). f_equal.
    unfold custom_call in Ec.
    destruct (split "_" (fst item)) as [|a [|b [|x l]]]; try discriminate.
    now injection Ec as <-.
Qed.

Lemma custom_calls_all_custom items : forall index calls,
  custom_calls index items = Some calls ->
  forallb is_set_custom_variable calls = true.
Proof.
  induction items as [|item items IH]; intros index calls H; simpl in H.
  - now injection H as <-.
  - destruct (custom_call index item) as [c|] eqn:Ec; [|discriminate].
    destruct (custom_calls (S index) items) as [cs|] eqn:E; [|discriminate].
    injection H as <-. simpl. rewrite (IH _ _ E), andb_true_r.
    unfold custom_call in Ec.
    destruct (split "_" (fst item)) as [|a [|b [|x l]]]; try discriminate.
    now injection Ec as <-.
Qed.

End CallFacts.
Module TagFacts.

Import Dict DictFacts StrFacts CallFacts ScanFacts.

(** The second half of [_get_additional_calls], from the document title
    on, for the [vars] and [pretrack] that the first half leaves. *)
Lemma title_and_custom_eq (vars : dict) (pretrack : string) (l : list event)
    (m : outcome (string * dict)) :
  m = Outcome l (inr (pretrack, vars)) ->
  (x <- m ;;
   (let '(pretrack, vars) := x in
    x <- (if mem "document_title" vars then
            match get "document_title" vars with
            | None => M.raise (KeyError "document_title")
            | Some title =>
                call <- M.lift (fmt_args SET_DOCUMENT_TITLE [title]) ;;
                M.ret (EmptyString ++ call, del "document_title" vars)
            end
          else M.ret (EmptyString, vars)) ;;
    (let '(var_str, vars) := x in
     var_str <- M.lift (custom_variables 0 vars var_str) ;;
     M.ret (var_str ++ pretrack))))
  = Outcome l
      (match custom_variables 0 (del "document_title" vars)
               (script match get "document_title" vars with
                       | Some title => [SetDocumentTitle title]
                       | None => []
                       end) with
       | inl e => inl e
       | inr var_str => inr (var_str ++ pretrack)
       end).
Proof.
  intros ->. unfold mem. run.
  destruct (get "document_title" vars) as [title|] eqn:Et.
  - rewrite fmt_set_document_title. run. cbn [script fold_right].
    rewrite app_nil_r. cbn [append].
    destruct (custom_variables 0 (del "document_title" vars) _); run;
      now rewrite ?List.app_nil_r.
  - run. rewrite (del_absent _ _ Et). cbn [script fold_right].
    destruct (custom_variables 0 vars _); run; now rewrite ?List.app_nil_r.
Qed.

Section Tags.

Variable U : utils.

Lemma additional_calls_eq ctx :
  _get_additional_calls U ctx
  = Outcome (user_log U ctx)
      (match custom_variables 0 (custom_items ctx) (script (title_calls ctx)) with
       | inl e => inl e
       | inr var_str => inr (var_str ++ script (user_calls U ctx))
       end).
Proof.
  unfold _get_additional_calls, user_log, user_calls, title_calls, custom_items.
  destruct (get "userid" (scan ctx)) as [userid|] eqn:Eu.
  - assert (Em : mem "userid" (scan ctx) = true) by (unfold mem; now rewrite Eu).
    rewrite Em. cbn [negb].
    erewrite title_and_custom_eq by reflexivity.
    rewrite (@get_del_ne "document_title" "userid") by discriminate.
    cbn [script fold_right]. rewrite !app_nil_r. reflexivity.
  - assert (Em : mem "userid" (scan ctx) = false) by (unfold mem; now rewrite Eu).
    rewrite Em, (del_absent _ _ Eu). cbn [negb].
    destruct (get_user_from_context U ctx) as [u|];
      [destruct (is_authenticated u) eqn:Ea|];
      (erewrite title_and_custom_eq by (run; rewrite ?Ea; reflexivity));
      cbn [script fold_right]; rewrite ?app_nil_r; reflexivity.
Qed.

Lemma gate_eq ctx html :
  gate U ctx html = Outcome (gate_log U ctx) (inr (gated U ctx html)).
Proof.
  unfold gate, gate_log, gated. run.
  destruct (is_internal_ip U ctx "PIWIK"); reflexivity.
Qed.

Lemma render_eq node ctx :
  render U node ctx
  = tag_result U ctx "['trackPageView']" (domain_path node) (site_id node).
Proof.
  unfold render, tag_result. rewrite additional_calls_eq.
  destruct (custom_variables 0 (custom_items ctx) _) as [e|var_str]; run.
  - reflexivity.
  - rewrite fmt_tracking_code. run. rewrite gate_eq. run.
    now rewrite ?List.app_nil_r.
Qed.

Lemma required_setting_eq st setting value_re invalid_msg :
  get_required_setting st setting value_re invalid_msg
  = Outcome [RequiredSetting setting]
      (match st setting with
       | None => inl (AnalyticalException (setting ++ " setting: not found"))
       | Some v =>
           if Re.search_anchored value_re v then inr v
           else inl (AnalyticalException
                       (setting ++ " setting: " ++ invalid_msg))
       end).
Proof.
  unfold get_required_setting. run.
  destruct (st setting) as [v|]; [|reflexivity].
  destruct (Re.search_anchored value_re v); reflexivity.
Qed.

Lemma valid_setting_value st setting value_re :
  valid_setting st setting value_re = true ->
  exists v, st setting = Some v /\ Re.search_anchored value_re v = true.
Proof.
  unfold valid_setting. destruct (st setting) as [v|]; [eauto | discriminate].
Qed.

Lemma init_valid st :
  valid_setting st "PIWIK_DOMAIN_PATH" DOMAINPATH_RE = true ->
  valid_setting st "PIWIK_SITE_ID" SITEID_RE = true ->
  exists url siteid,
    st "PIWIK_DOMAIN_PATH" = Some url /\ st "PIWIK_SITE_ID" = Some siteid
    /\ PiwikNode_init st
       = Outcome [RequiredSetting "PIWIK_DOMAIN_PATH"; RequiredSetting "PIWIK_SITE_ID"]
           (inr {| domain_path := url; site_id := siteid |}).
Proof.
  intros Hd Hs.
  apply valid_setting_value in Hd as (url & Ed & Md).
  apply valid_setting_value in Hs as (siteid & Es & Ms).
  exists url, siteid. repeat split; try assumption.
  unfold PiwikNode_init. rewrite !required_setting_eq, Ed, Es, Md, Ms.
  reflexivity.
Qed.

Lemma init_invalid st :
  valid_setting st "PIWIK_DOMAIN_PATH" DOMAINPATH_RE = false
  \/ valid_setting st "PIWIK_SITE_ID" SITEID_RE = false ->
  is_configuration_error (value (PiwikNode_init st)) = true
  /\ forallb is_required_setting (log (PiwikNode_init st)) = true.
Proof.
  unfold PiwikNode_init, valid_setting. rewrite !required_setting_eq.
  destruct (st "PIWIK_DOMAIN_PATH") as [url|];
    [destruct (Re.search_anchored DOMAINPATH_RE url)|];
    (destruct (st "PIWIK_SITE_ID") as [siteid|];
     [destruct (Re.search_anchored SITEID_RE siteid)|]);
    intros [H | H]; try discriminate H; split; reflexivity.
Qed.

Lemma search_valid st ctx query category count url siteid :
  st "PIWIK_DOMAIN_PATH" = Some url ->
  Re.search_anchored DOMAINPATH_RE url = true ->
  st "PIWIK_SITE_ID" = Some siteid ->
  Re.search_anchored SITEID_RE siteid = true ->
  let r := tag_result U ctx
             (track_site_search query (or_false category) (or_false count))
             url siteid in
  piwik_search U st ctx query category count
  = Outcome ([RequiredSetting "PIWIK_DOMAIN_PATH"; RequiredSetting "PIWIK_SITE_ID"]
             ++ log r)%list (value r).
Proof.
  intros Ed Md Es Ms r. subst r.
  unfold piwik_search, tag_result.
  rewrite !required_setting_eq, Ed, Es, Md, Ms, additional_calls_eq.
  destruct (custom_variables 0 (custom_items ctx) _) as [e|var_str]; run.
  - reflexivity.
  - rewrite fmt_track_site_search. run.
    rewrite fmt_tracking_code. run. rewrite gate_eq. run.
    now rewrite ?List.app_nil_r.
Qed.

Lemma search_invalid st ctx query category count :
  valid_setting st "PIWIK_DOMAIN_PATH" DOMAINPATH_RE = false
  \/ valid_setting st "PIWIK_SITE_ID" SITEID_RE = false ->
  is_configuration_error (value (piwik_search U st ctx query category count))
  = true.
Proof.
  unfold piwik_search, valid_setting. rewrite !required_setting_eq.
  destruct (st "PIWIK_DOMAIN_PATH") as [url|];
    [destruct (Re.search_anchored DOMAINPATH_RE url)|];
    (destruct (st "PIWIK_SITE_ID") as [siteid|];
     [destruct (Re.search_anchored SITEID_RE siteid)|]);
    intros [H | H]; try discriminate H; reflexivity.
Qed.

End Tags.

End TagFacts.

(** * The keys left for the custom variables *)

Module KeyFacts.

Import Dict DictFacts StrFacts ScanFacts.

Lemma keys_set k' k v (d : dict) :
  In k' (keys (set k v d)) <-> k' = k \/ In k' (keys d).
Proof.
  unfold keys. induction d as [|[k0 v0] d IH]; simpl.
  - intuition.
  - destruct (String.eqb k k0) eqn:E; simpl.
    + apply String.eqb_eq in E as <-. intuition.
    + rewrite IH. intuition.
Qed.

Lemma nodup_set k v (d : dict) : NoDup (keys d) -> NoDup (keys (set k v d)).
Proof.
  unfold keys. induction d as [|[k0 v0] d IH]; simpl; intros H.
  - constructor; [intros [] | constructor].
  - inversion H as [|? ? Hn Hd]; subst.
    destruct (String.eqb k k0) eqn:E; simpl; constructor; auto.
    intros Hin. apply (keys_set k0 k v d) in Hin as [-> | Hin]; [|auto].
    now rewrite String.eqb_refl in E.
Qed.

Lemma in_del_inv (item : string * pyval) k (d : dict) :
  In item (del k d) -> In item d.
Proof.
  induction d as [|[k0 v0] d IH]; simpl; [auto|].
  destruct (String.eqb k k0); simpl; intuition.
Qed.

Lemma nodup_del k (d : dict) : NoDup (keys d) -> NoDup (keys (del k d)).
Proof.
  unfold keys. induction d as [|[k0 v0] d IH]; simpl; intros H; [exact H|].
  inversion H as [|? ? Hn Hd]; subst.
  destruct (String.eqb k k0); simpl; [exact Hd|].
  constructor; [|auto].
  intros Hin. apply Hn. apply in_map_iff in Hin as ([k1 v1] & E & Hin).
  apply in_map_iff. exists (k1, v1). split; [exact E|].
  exact (in_del_inv _ _ _ Hin).
Qed.

Lemma del_removes k v (d : dict) : NoDup (keys d) -> ~ In (k, v) (del k d).
Proof.
  unfold keys. induction d as [|[k0 v0] d IH]; simpl; intros H; [auto|].
  inversion H as [|? ? Hn Hd]; subst.
  destruct (String.eqb k k0) eqn:E; simpl.
  - apply String.eqb_eq in E as <-. intros Hin. apply Hn.
    apply in_map_iff. now exists (k, v).
  - intros [[= -> _] | Hin]; [now rewrite String.eqb_refl in E|].
    exact (IH Hd Hin).
Qed.

Lemma nodup_scan_dict dict_ : forall vars,
  NoDup (keys vars) -> NoDup (keys (scan_dict vars dict_)).
Proof.
  induction dict_ as [|[var val] dict_ IH]; intros vars H; [exact H|].
  rewrite scan_dict_cons, scan_item_eq. apply IH.
  destruct (startswith var "piwik_"); [now apply nodup_set | exact H].
Qed.

Lemma nodup_scan ctx : NoDup (keys (scan ctx)).
Proof.
  unfold scan. assert (H : NoDup (keys [])) by constructor.
  revert H. generalize (@nil (string * pyval)).
  induction ctx as [|dict_ ctx IH]; intros vars H; [exact H|].
  simpl. apply IH. now apply nodup_scan_dict.
Qed.

Lemma piwik_key (key : string) :
  startswith key "piwik_" = true -> key = "piwik_" ++ drop 6 key.
Proof. exact (startswith_drop key "piwik_"). Qed.

(** Every key left for the loop is a [piwik_] variable of the context
    other than the two special ones. *)
Lemma custom_items_origin k v ctx :
  In (k, v) (custom_items ctx) ->
  k <> "userid" /\ k <> "document_title"
  /\ exists v', binds ctx ("piwik_" ++ k) v'.
Proof.
  unfold custom_items. intros H.
  pose proof (nodup_scan ctx) as N.
  repeat split.
  - intros ->. apply in_del_inv in H. exact (del_removes _ _ _ N H).
  - intros ->. exact (del_removes _ _ _ (nodup_del "userid" _ N) H).
  - do 2 apply in_del_inv in H.
    apply in_get in H as [v' H]. exists v'. now apply scan_origin.
Qed.

(** Every other [piwik_] variable of the context is left for the loop. *)
Lemma custom_items_found key val ctx :
  binds ctx key val ->
  startswith key "piwik_" = true ->
  key <> "piwik_userid" -> key <> "piwik_document_title" ->
  exists v', In (drop 6 key, v') (custom_items ctx).
Proof.
  intros B P Nu Nt. pose proof (piwik_key _ P) as E.
  rewrite E in B. apply scan_finds in B as [v' G].
  exists v'. unfold custom_items.
  apply in_del; [intros D; apply Nt; now rewrite E, D|].
  apply in_del; [intros D; apply Nu; now rewrite E, D|].
  now apply get_in.
Qed.

(** The loop meets keys with exactly one underscore only, when and only
    when every custom variable of the context has such a key. *)
Lemma well_formed_context ctx :
  well_formed (custom_items ctx) = true <->
  (forall key val,
      binds ctx key val ->
      startswith key "piwik_" = true ->
      key <> "piwik_userid" -> key <> "piwik_document_title" ->
      count "_" (drop 6 key) = 1).
Proof.
  unfold well_formed. rewrite forallb_forall. split.
  - intros H key val B P Nu Nt.
    destruct (custom_items_found B P Nu Nt) as [v' Hin].
    apply H in Hin. now apply Nat.eqb_eq in Hin.
  - intros H [k v] Hin. simpl.
    apply custom_items_origin in Hin as (Nu & Nt & v' & B).
    apply Nat.eqb_eq.
    apply (H ("piwik_" ++ k) v' B); [reflexivity | |].
    + intros [= E]. auto.
    + intros [= E]. auto.
Qed.

End KeyFacts.

(** * Text that survives the gate, and text that the gate makes inert *)

Module GateFacts.

Import StrFacts.

Lemma contains_disable_html n html service :
  contains n html = true -> contains n (disable_html html service) = true.
Proof.
  intros H. unfold disable_html.
  do 4 apply contains_app_r. now apply contains_app_l.
Qed.

Lemma contains_gated U ctx n html :
  contains n html = true -> contains n (gated U ctx html) = true.
Proof.
  intros H. unfold gated.
  destruct (is_internal_ip U ctx "PIWIK"); [now apply contains_disable_html | exact H].
Qed.

Lemma contains_snippet_close n pretrack method url siteid :
  contains n (snippet_close url siteid) = true ->
  contains n (snippet pretrack method url siteid) = true.
Proof.
  intros H. unfold snippet. do 6 apply contains_app_r. exact H.
Qed.

Lemma contains_snippet_method pretrack method url siteid :
  contains ("_paq.push(" ++ method ++ ");")
    (snippet pretrack method url siteid) = true.
Proof.
  unfold snippet. do 3 apply contains_app_r.
  change ("  _paq.push(" ++ method ++ ");" ++ snippet_close url siteid)
    with ("  " ++ "_paq.push(" ++ method ++ ");" ++ snippet_close url siteid).
  apply contains_app_r.
  replace ("_paq.push(" ++ method ++ ");" ++ snippet_close url siteid)
    with (("_paq.push(" ++ method ++ ");") ++ snippet_close url siteid)
    by now rewrite !app_assoc.
  apply contains_here.
Qed.

Lemma contains_tail (n : string) c (s : string) :
  contains n (String c s) = false -> contains n s = false.
Proof. cbn [contains]. intros H. now apply orb_false_iff in H as [_ H]. Qed.

Lemma comment_step_newline st :
  in_comment_text st = true -> comment_step st "010" = Comment.
Proof. destruct st; try discriminate; reflexivity. Qed.

(** In the text of a comment, characters that complete neither [-->] nor
    [--!>] leave the tokenizer in the comment. *)
Lemma comment_step_stays st c (a : string) :
  in_comment_text st = true ->
  contains "-->" (pending st ++ String c a) = false ->
  contains "--!>" (pending st ++ String c a) = false ->
  in_comment_text (comment_step st c) = true
  /\ contains "-->" (pending (comment_step st c) ++ a) = false
  /\ contains "--!>" (pending (comment_step st c) ++ a) = false.
Proof.
  intros Hs H1 H2. unfold comment_step.
  destruct (Ascii.eqb_spec c "-") as [->|Nd];
    [|destruct (Ascii.eqb_spec c ">") as [->|Ng];
      [|destruct (Ascii.eqb_spec c "!") as [->|Nb]]];
    destruct st; try discriminate Hs;
    cbn [Ascii.eqb Bool.eqb andb pending append in_comment_text] in *;
    try (exfalso; cbn in H1; discriminate H1);
    try (exfalso; cbn in H2; discriminate H2);
    repeat split;
    repeat (first [ assumption
                  | apply contains_tail in H1
                  | apply contains_tail in H2 ]).
Qed.

Lemma live_comment_app (a rest : string) : forall st,
  in_comment_text st = true ->
  contains "-->" (pending st ++ a) = false ->
  contains "--!>" (pending st ++ a) = false ->
  live st (a ++ String "010" rest) = live Comment rest.
Proof.
  induction a as [|c a IH]; intros st Hs H1 H2.
  - cbn [append live]. rewrite (comment_step_newline _ Hs).
    now destruct st.
  - destruct (comment_step_stays _ _ _ Hs H1 H2) as (Hs' & H1' & H2').
    rewrite <- (IH _ Hs' H1' H2').
    change (String c a ++ String "010" rest)
      with (String c (a ++ String "010" rest)).
    now destruct st.
Qed.

(** The disabled snippet is one comment when the snippet holds no end of
    a comment. *)
Lemma disabled_is_inert (html : string) :
  contains "-->" html = false ->
  contains "--!>" html = false ->
  live Data (disable_html html "Piwik") = EmptyString.
Proof.
  intros H1 H2.
  change (live Comment ("Piwik disabled on internal IP address"
                        ++ String "010" (html ++ String "010" "-->"))
          = EmptyString).
  rewrite (live_comment_app _ _ Comment) by reflexivity.
  now rewrite (live_comment_app _ _ Comment eq_refl H1 H2).
Qed.

End GateFacts.

(** * Properties of the two tags *)

Import Dict DictFacts StrFacts ScanFacts CallFacts TagFacts KeyFacts GateFacts.

(** C1, as amended.  With the settings [PIWIK_DOMAIN_PATH = "example.com"]
    and [PIWIK_SITE_ID = "5"] and a context without [piwik_] variables, the
    page view tag is constructed and every render returns a string: the
    template filled with the method [['trackPageView']], the configured
    domain and site ID and the gathered pre-track statements, passed
    through the internal-IP gate.  The string contains ['setSiteId', 5],
    with the quotes of the JavaScript array around the method name, and
    the tracker URL [example.com/piwik.php]. *)
Theorem C1_pageview_snippet (U : utils) (st : settings) (ctx : context) :
  st "PIWIK_DOMAIN_PATH" = Some "example.com" ->
  st "PIWIK_SITE_ID" = Some "5" ->
  no_piwik_variables ctx ->
  exists node pretrack html,
    value (piwik st ["piwik"]) = inr node
    /\ value (_get_additional_calls U ctx) = inr pretrack
    /\ fmt_dict TRACKING_CODE
         [ ("method", PStr "['trackPageView']"); ("url", PStr "example.com");
           ("siteid", PStr "5"); ("pretrack", PStr pretrack) ]
       = inr (snippet pretrack "['trackPageView']" "example.com" "5")
    /\ value (render U node ctx) = inr html
    /\ html = gated U ctx (snippet pretrack "['trackPageView']" "example.com" "5")
    /\ contains "'setSiteId', 5" html = true
    /\ contains "example.com/piwik.php" html = true.
Proof.
  intros Hd Hs Hn.
  destruct (init_valid st) as (url & siteid & Ed & Es & Ei).
  { unfold valid_setting. now rewrite Hd. }
  { unfold valid_setting. now rewrite Hs. }
  rewrite Hd in Ed. rewrite Hs in Es. injection Ed as <-. injection Es as <-.
  pose proof (scan_nothing Hn) as En.
  assert (Ep : value (_get_additional_calls U ctx) = inr (script (user_calls U ctx))).
  { rewrite additional_calls_eq. unfold custom_items, title_calls. now rewrite En. }
  exists {| domain_path := "example.com"; site_id := "5" |},
         (script (user_calls U ctx)),
         (gated U ctx (snippet (script (user_calls U ctx)) "['trackPageView']"
                         "example.com" "5")).
  split; [unfold piwik; simpl; now rewrite Ei|].
  split; [exact Ep|].
  split; [apply fmt_tracking_code|].
  split.
  { rewrite render_eq. unfold tag_result, custom_items, title_calls.
    now rewrite En. }
  split; [reflexivity|].
  split; apply contains_gated, contains_snippet_close; reflexivity.
Qed.

Lemma C1_pageview_snippet_witness :
  Examples.example_settings "PIWIK_DOMAIN_PATH" = Some "example.com"
  /\ Examples.example_settings "PIWIK_SITE_ID" = Some "5"
  /\ no_piwik_variables Examples.plain_context
  /\ exists node pretrack html,
       value (piwik Examples.example_settings ["piwik"]) = inr node
       /\ value (_get_additional_calls Examples.member Examples.plain_context)
          = inr pretrack
       /\ fmt_dict TRACKING_CODE
            [ ("method", PStr "['trackPageView']"); ("url", PStr "example.com");
              ("siteid", PStr "5"); ("pretrack", PStr pretrack) ]
          = inr (snippet pretrack "['trackPageView']" "example.com" "5")
       /\ value (render Examples.member node Examples.plain_context) = inr html
       /\ html = gated Examples.member Examples.plain_context
                   (snippet pretrack "['trackPageView']" "example.com" "5")
       /\ contains "'setSiteId', 5" html = true
       /\ contains "example.com/piwik.php" html = true.
Proof.
  assert (Hn : no_piwik_variables Examples.plain_context).
  { intros key val (d & Hd & Hin).
    destruct Hd as [<- | []]. destruct Hin as [[= <- _] | []]. reflexivity. }
  split; [reflexivity|]. split; [reflexivity|]. split; [exact Hn|].
  exact (C1_pageview_snippet Examples.member Examples.example_settings
           (ctx := Examples.plain_context) eq_refl eq_refl Hn).
Defined.

(** C1 as stated fails: the text [setSiteId, 5] is not in the output,
    because the template puts the method name between quotes. *)
Lemma C1_literal_text_absent :
  exists html,
    value (render Examples.outside Examples.example_node []) = inr html
    /\ value (piwik Examples.example_settings ["piwik"]) = inr Examples.example_node
    /\ contains "setSiteId, 5" html = false.
Proof.
  eexists. split; [vm_compute; reflexivity|].
  split; vm_compute; reflexivity.
Qed.

(** C2.  When [PIWIK_DOMAIN_PATH] does not match its pattern or
    [PIWIK_SITE_ID] does not match [^\d+$], constructing the page view node
    fails with a configuration error: the tag function returns no node, so
    nothing can be rendered, and all that happened is the reading of
    settings.  A domain path with a scheme and a site ID that is a word are
    such values. *)
Theorem C2_invalid_setting_fails_construction (st : settings) :
  valid_setting st "PIWIK_DOMAIN_PATH" DOMAINPATH_RE = false
  \/ valid_setting st "PIWIK_SITE_ID" SITEID_RE = false ->
  is_configuration_error (value (PiwikNode_init st)) = true
  /\ is_configuration_error (value (piwik st ["piwik"])) = true
  /\ (forall bits node, value (piwik st bits) <> inr node)
  /\ (forall bits, forallb is_required_setting (log (piwik st bits)) = true)
  /\ Re.search_anchored DOMAINPATH_RE "http://x.com" = false
  /\ Re.search_anchored SITEID_RE "five" = false.
Proof.
  intros H. destruct (init_invalid st H) as [Hv Hl].
  split; [exact Hv|]. split; [exact Hv|].
  split; [|split; [|split; reflexivity]].
  - intros bits node. unfold piwik.
    destruct (1 <? List.length bits)%nat; simpl; [discriminate|].
    intros E. now rewrite E in Hv.
  - intros bits. unfold piwik.
    destruct (1 <? List.length bits)%nat; [reflexivity | exact Hl].
Qed.

Lemma C2_invalid_setting_fails_construction_witness :
  (valid_setting Examples.scheme_settings "PIWIK_DOMAIN_PATH" DOMAINPATH_RE = false
   /\ valid_setting Examples.word_settings "PIWIK_SITE_ID" SITEID_RE = false)
  /\ is_configuration_error (value (PiwikNode_init Examples.scheme_settings)) = true
  /\ is_configuration_error (value (PiwikNode_init Examples.word_settings)) = true.
Proof.
  split; [split; reflexivity|].
  split.
  - exact (proj1 (C2_invalid_setting_fails_construction Examples.scheme_settings
                    (or_introl eq_refl))).
  - exact (proj1 (C2_invalid_setting_fails_construction Examples.word_settings
                    (or_intror eq_refl))).
Defined.

(** C3, as amended.  With valid settings and well formed custom variable
    keys, every invocation of the search tag returns the template filled
    with the method [['trackSiteSearch', q, c, n]], where [q], [c] and [n]
    are the JSON encodings of the query, the category and the result
    count, and an omitted category or count is encoded as [false].  For
    the query "shoes", the category "apparel" and the count 10 the method
    is [['trackSiteSearch', "shoes", "apparel", 10]], the method name
    between quotes. *)
Theorem C3_search_tracking_call (U : utils) (st : settings) (ctx : context)
    (query : pyval) (category count : option pyval) :
  valid_setting st "PIWIK_DOMAIN_PATH" DOMAINPATH_RE = true ->
  valid_setting st "PIWIK_SITE_ID" SITEID_RE = true ->
  well_formed (custom_items ctx) = true ->
  exists url siteid pretrack html,
    st "PIWIK_DOMAIN_PATH" = Some url
    /\ st "PIWIK_SITE_ID" = Some siteid
    /\ value (_get_additional_calls U ctx) = inr pretrack
    /\ value (piwik_search U st ctx query category count) = inr html
    /\ fmt_args TRACK_SITE_SEARCH
         [ PStr (Json.dumps query); PStr (Json.dumps (or_false category));
           PStr (Json.dumps (or_false count)) ]
       = inr (track_site_search query (or_false category) (or_false count))
    /\ html = gated U ctx
                (snippet pretrack
                   (track_site_search query (or_false category) (or_false count))
                   url siteid)
    /\ contains
         ("_paq.push("
          ++ track_site_search query (or_false category) (or_false count)
          ++ ");") html = true
    /\ Json.dumps (or_false None) = "false"
    /\ track_site_search (PStr "shoes") (or_false (Some (PStr "apparel")))
         (or_false (Some (PInt 10)))
       = "['trackSiteSearch', " ++ dq ++ "shoes" ++ dq ++ ", "
         ++ dq ++ "apparel" ++ dq ++ ", 10]".
Proof.
  intros Hd Hs Hw.
  apply valid_setting_value in Hd as (url & Ed & Md).
  apply valid_setting_value in Hs as (siteid & Es & Ms).
  apply custom_calls_well_formed with (index := 0) in Hw.
  destruct (custom_calls 0 (custom_items ctx)) as [customs|] eqn:Ec;
    [clear Hw | congruence].
  pose proof (@custom_variables_calls _ 0 (script (title_calls ctx)) _ Ec) as Ev.
  exists url, siteid,
    ((script (title_calls ctx) ++ script customs) ++ script (user_calls U ctx)).
  eexists. split; [exact Ed|]. split; [exact Es|].
  split; [rewrite additional_calls_eq; simpl; now rewrite Ev|].
  split.
  { rewrite (search_valid U st ctx query category count Ed Md Es Ms).
    unfold tag_result. rewrite Ev. reflexivity. }
  split; [apply fmt_track_site_search|].
  split; [reflexivity|].
  split; [|split; reflexivity].
  apply contains_gated.
  exact (contains_snippet_method _
           (track_site_search query (or_false category) (or_false count)) _ _).
Qed.

Lemma C3_search_tracking_call_witness :
  (valid_setting Examples.example_settings "PIWIK_DOMAIN_PATH" DOMAINPATH_RE = true
   /\ valid_setting Examples.example_settings "PIWIK_SITE_ID" SITEID_RE = true
   /\ well_formed (custom_items Examples.title_context) = true)
  /\ exists html,
       value (piwik_search Examples.member Examples.example_settings
                Examples.title_context (PStr "shoes") (Some (PStr "apparel"))
                (Some (PInt 10))) = inr html
       /\ contains
            ("_paq.push(['trackSiteSearch', " ++ dq ++ "shoes" ++ dq ++ ", "
             ++ dq ++ "apparel" ++ dq ++ ", 10]);") html = true.
Proof.
  split; [repeat split; reflexivity|].
  destruct (C3_search_tracking_call Examples.member Examples.example_settings
              Examples.title_context (PStr "shoes") (Some (PStr "apparel"))
              (Some (PInt 10)) eq_refl eq_refl eq_refl)
    as (url & siteid & pretrack & html & _ & _ & _ & Hv & _ & _ & Hc & _).
  exists html. split; [exact Hv | exact Hc].
Defined.

(** C3 as stated fails: the text [trackSiteSearch, "shoes", "apparel", 10]
    is not in the output, because the method name is between quotes. *)
Lemma C3_literal_text_absent :
  exists html,
    value (piwik_search Examples.outside Examples.example_settings []
             (PStr "shoes") (Some (PStr "apparel")) (Some (PInt 10))) = inr html
    /\ contains ("trackSiteSearch, " ++ dq ++ "shoes" ++ dq ++ ", "
                 ++ dq ++ "apparel" ++ dq ++ ", 10") html = false.
Proof.
  eexists. split; vm_compute; reflexivity.
Qed.

(** C4.  When some scope of the context binds [piwik_userid], the value
    that the scan keeps for it is one that the context binds, gathering the
    statements asks neither for the user nor for the identity, and the
    gathered statements (well formed keys, so that there are statements)
    are the text of a list of calls with exactly one [setUserId], made with
    that value.  In any context, the identity is looked up only when no
    scope binds [piwik_userid] and the user of the context is
    authenticated. *)
Theorem C4_context_userid (U : utils) (ctx : context) :
  (forall val,
      binds ctx "piwik_userid" val ->
      exists userid,
        Dict.get "userid" (scan ctx) = Some userid
        /\ binds ctx "piwik_userid" userid
        /\ log (_get_additional_calls U ctx) = []
        /\ (well_formed (custom_items ctx) = true ->
            exists customs,
              custom_calls 0 (custom_items ctx) = Some customs
              /\ value (_get_additional_calls U ctx)
                 = inr (script (title_calls ctx ++ customs
                                ++ [SetUserId userid])%list)
              /\ filter is_set_user_id
                   (title_calls ctx ++ customs ++ [SetUserId userid])%list
                 = [SetUserId userid]))
  /\ (forall u,
         In (Identity u) (log (_get_additional_calls U ctx)) ->
         Dict.mem "userid" (scan ctx) = false
         /\ (forall val, ~ binds ctx "piwik_userid" val)
         /\ get_user_from_context U ctx = Some u
         /\ is_authenticated u = true).
Proof.
  split.
  - intros val B.
    destruct (scan_finds (k := "userid") B) as [userid G].
    exists userid. split; [exact G|].
    split; [exact (scan_origin _ _ G)|].
    assert (Em : mem "userid" (scan ctx) = true) by (unfold mem; now rewrite G).
    split; [rewrite additional_calls_eq; unfold user_log; now rewrite Em|].
    intros Hw. apply custom_calls_well_formed with (index := 0) in Hw.
    destruct (custom_calls 0 (custom_items ctx)) as [customs|] eqn:Ec;
      [clear Hw | congruence].
    assert (Eu : user_calls U ctx = [SetUserId userid])
      by (unfold user_calls; now rewrite G).
    exists customs. split; [reflexivity|]. rewrite <- Eu. split.
    + rewrite additional_calls_eq. simpl.
      rewrite (@custom_variables_calls _ 0 (script (title_calls ctx)) _ Ec).
      now rewrite !script_app, app_assoc.
    + rewrite !filter_app. rewrite Eu. unfold title_calls.
      assert (F : filter is_set_user_id customs = []).
      { pose proof (custom_calls_all_custom _ _ Ec) as A.
        clear Ec. induction customs as [|c cs IH]; [reflexivity|].
        simpl in A. apply andb_true_iff in A as [Ac A].
        destruct c; try discriminate. simpl. now apply IH. }
      rewrite F. now destruct (get "document_title" (scan ctx)).
  - intros u Hin. rewrite additional_calls_eq in Hin. simpl in Hin.
    unfold user_log in Hin.
    destruct (mem "userid" (scan ctx)) eqn:Em; [contradiction|].
    split; [reflexivity|]. split.
    + intros val B. destruct (scan_finds (k := "userid") B) as [v G].
      unfold mem in Em. now rewrite G in Em.
    + destruct Hin as [Hin | Hin]; [discriminate|].
      destruct (get_user_from_context U ctx) as [u'|]; [|contradiction].
      destruct (is_authenticated u') eqn:Ea; [|contradiction].
      destruct Hin as [[= ->] | []]. auto.
Qed.

Lemma C4_context_userid_witness :
  binds Examples.userid_context "piwik_userid" (PStr "42")
  /\ well_formed (custom_items Examples.userid_context) = true
  /\ exists customs,
       Dict.get "userid" (scan Examples.userid_context) = Some (PStr "42")
       /\ log (_get_additional_calls Examples.member Examples.userid_context) = []
       /\ value (_get_additional_calls Examples.member Examples.userid_context)
          = inr (script (title_calls Examples.userid_context ++ customs
                         ++ [SetUserId (PStr "42")])%list).
Proof.
  assert (B : binds Examples.userid_context "piwik_userid" (PStr "42")).
  { eexists. split; [left; reflexivity | left; reflexivity]. }
  split; [exact B|]. split; [reflexivity|].
  destruct (proj1 (C4_context_userid Examples.member Examples.userid_context) _ B)
    as (userid & G & _ & L & H).
  destruct (H eq_refl) as (customs & _ & V & _).
  injection G as <-. exists customs. auto.
Defined.

(** C5.  When the context binds a [piwik_] variable other than
    [piwik_userid] and [piwik_document_title] whose name has no
    underscore after the prefix, gathering the statements raises a
    [ValueError]; the render returns that error to its caller and stops
    there, before the template is filled and the gate is asked, and so does
    the search tag once its settings are read. *)
Theorem C5_key_without_underscore_raises (U : utils) (node : PiwikNode)
    (st : settings) (ctx : context) (key : string) (val query : pyval)
    (category count : option pyval) :
  binds ctx key val ->
  startswith key "piwik_" = true ->
  key <> "piwik_userid" ->
  key <> "piwik_document_title" ->
  Str.count "_" (drop 6 key) = 0 ->
  is_value_error (value (_get_additional_calls U ctx)) = true
  /\ is_value_error (value (render U node ctx)) = true
  /\ log (render U node ctx) = log (_get_additional_calls U ctx)
  /\ (valid_setting st "PIWIK_DOMAIN_PATH" DOMAINPATH_RE = true ->
      valid_setting st "PIWIK_SITE_ID" SITEID_RE = true ->
      is_value_error (value (piwik_search U st ctx query category count)) = true).
Proof.
  intros B P Nu Nt C0.
  assert (Hw : well_formed (custom_items ctx) = false).
  { destruct (well_formed (custom_items ctx)) eqn:E; [|reflexivity].
    pose proof (proj1 (well_formed_context ctx) E key val B P Nu Nt) as C1.
    congruence. }
  assert (Ec : custom_calls 0 (custom_items ctx) = None).
  { destruct (custom_calls 0 (custom_items ctx)) eqn:E; [|reflexivity].
    assert (N : custom_calls 0 (custom_items ctx) <> None) by congruence.
    apply custom_calls_well_formed in N. congruence. }
  pose proof (custom_variables_fails _ 0 (script (title_calls ctx)) Ec) as F.
  destruct (custom_variables 0 (custom_items ctx) (script (title_calls ctx)))
    as [e|s] eqn:Ev; [|discriminate].
  split; [rewrite additional_calls_eq; simpl; now rewrite Ev|].
  split; [rewrite render_eq; unfold tag_result; now rewrite Ev|].
  split; [rewrite render_eq, additional_calls_eq; unfold tag_result;
          now rewrite Ev|].
  intros Hd Hs.
  apply valid_setting_value in Hd as (url & Ed & Md).
  apply valid_setting_value in Hs as (siteid & Es & Ms).
  rewrite (search_valid U st ctx query category count Ed Md Es Ms).
  unfold tag_result. now rewrite Ev.
Qed.

Lemma C5_key_without_underscore_raises_witness :
  (binds Examples.no_underscore_context "piwik_section" (PStr "news")
   /\ Str.count "_" (drop 6 "piwik_section") = 0)
  /\ is_value_error
       (value (render Examples.member Examples.example_node
                 Examples.no_underscore_context)) = true.
Proof.
  assert (B : binds Examples.no_underscore_context "piwik_section" (PStr "news")).
  { eexists. split; [left; reflexivity | left; reflexivity]. }
  split; [split; [exact B | reflexivity]|].
  refine (proj1 (proj2 (C5_key_without_underscore_raises Examples.member
                          Examples.example_node Examples.example_settings
                          (PStr "shoes") None None B eq_refl _ _ eq_refl)));
    discriminate.
Defined.

(** C6.  When some scope of the context binds [piwik_document_title] and
    the custom variable keys are well formed, the gathered statements
    start with the [setDocumentTitle] call made with the value that the
    scan keeps, which the context binds; the [setCustomVariable] calls, one
    for each remaining variable, follow it, and the [setUserId] call, if
    any, comes last.  No [setCustomVariable] call starts at or before the
    start of the [setDocumentTitle] call. *)
Theorem C6_document_title_first (U : utils) (ctx : context) (val : pyval) :
  binds ctx "piwik_document_title" val ->
  well_formed (custom_items ctx) = true ->
  exists title customs out,
    Dict.get "document_title" (scan ctx) = Some title
    /\ binds ctx "piwik_document_title" title
    /\ value (_get_additional_calls U ctx) = inr out
    /\ out = js (SetDocumentTitle title)
             ++ script customs ++ script (user_calls U ctx)
    /\ custom_calls 0 (custom_items ctx) = Some customs
    /\ forallb is_set_custom_variable customs = true
    /\ List.length customs = List.length (custom_items ctx)
    /\ filter is_set_custom_variable (user_calls U ctx) = []
    /\ prefix "_paq.push(['setCustomVariable'" out = false.
Proof.
  intros B Hw.
  destruct (scan_finds (k := "document_title") B) as [title G].
  apply custom_calls_well_formed with (index := 0) in Hw.
  destruct (custom_calls 0 (custom_items ctx)) as [customs|] eqn:Ec;
    [clear Hw | congruence].
  exists title, customs. eexists.
  split; [exact G|]. split; [exact (scan_origin _ _ G)|].
  split.
  { rewrite additional_calls_eq. simpl.
    rewrite (@custom_variables_calls _ 0 (script (title_calls ctx)) _ Ec).
    unfold title_calls. rewrite G. cbn [script fold_right].
    rewrite app_nil_r, app_assoc. reflexivity. }
  split; [reflexivity|]. split; [reflexivity|].
  split; [exact (custom_calls_all_custom _ _ Ec)|].
  split.
  { pose proof (custom_calls_index _ _ Ec) as I.
    apply (f_equal (@List.length _)) in I.
    now rewrite !length_map, length_seq in I. }
  split; [|reflexivity].
  unfold user_calls.
  destruct (get "userid" (scan ctx)); [reflexivity|].
  destruct (get_user_from_context U ctx) as [u|];
    [destruct (is_authenticated u)|]; reflexivity.
Qed.

Lemma C6_document_title_first_witness :
  (binds Examples.title_context "piwik_document_title" (PStr "Home")
   /\ well_formed (custom_items Examples.title_context) = true)
  /\ exists customs,
       value (_get_additional_calls Examples.member Examples.title_context)
       = inr (js (SetDocumentTitle (PStr "Home")) ++ script customs
              ++ script (user_calls Examples.member Examples.title_context))
       /\ List.length customs = 2.
Proof.
  assert (B : binds Examples.title_context "piwik_document_title" (PStr "Home")).
  { eexists. split; [left; reflexivity | left; reflexivity]. }
  split; [split; [exact B | reflexivity]|].
  destruct (C6_document_title_first Examples.member B eq_refl)
    as (title & customs & out & G & _ & V & E & _ & _ & L & _).
  exists customs. split; [|exact L].
  injection G as <-. rewrite <- E. exact V.
Defined.


(** C7.  The search tag reads and checks [PIWIK_DOMAIN_PATH] and then
    [PIWIK_SITE_ID] on every call, and the call fails with a configuration
    error when one of them is invalid.  The page view node reads and checks
    each of them once when it is constructed; its render, whatever the
    node and the context, reads no setting and never fails with a
    configuration error. *)
Theorem C7_validation_sites (U : utils) (st : settings) (ctx : context)
    (node : PiwikNode) (query : pyval) (category count : option pyval) :
  (valid_setting st "PIWIK_DOMAIN_PATH" DOMAINPATH_RE = false
   \/ valid_setting st "PIWIK_SITE_ID" SITEID_RE = false ->
   is_configuration_error (value (piwik_search U st ctx query category count))
   = true)
  /\ nth_error (log (piwik_search U st ctx query category count)) 0
     = Some (RequiredSetting "PIWIK_DOMAIN_PATH")
  /\ (valid_setting st "PIWIK_DOMAIN_PATH" DOMAINPATH_RE = true ->
      nth_error (log (piwik_search U st ctx query category count)) 1
      = Some (RequiredSetting "PIWIK_SITE_ID"))
  /\ (valid_setting st "PIWIK_DOMAIN_PATH" DOMAINPATH_RE = true ->
      log (PiwikNode_init st)
      = [RequiredSetting "PIWIK_DOMAIN_PATH"; RequiredSetting "PIWIK_SITE_ID"])
  /\ (valid_setting st "PIWIK_DOMAIN_PATH" DOMAINPATH_RE = false ->
      log (PiwikNode_init st) = [RequiredSetting "PIWIK_DOMAIN_PATH"])
  /\ filter is_required_setting (log (render U node ctx)) = []
  /\ is_configuration_error (value (render U node ctx)) = false.
Proof.
  split; [apply search_invalid|].
  split.
  { unfold piwik_search. rewrite !required_setting_eq.
    destruct (st "PIWIK_DOMAIN_PATH") as [url|];
      [destruct (Re.search_anchored DOMAINPATH_RE url)|]; reflexivity. }
  split.
  { intros Hd. apply valid_setting_value in Hd as (url & Ed & Md).
    unfold piwik_search. rewrite !required_setting_eq, Ed, Md.
    destruct (st "PIWIK_SITE_ID") as [siteid|];
      [destruct (Re.search_anchored SITEID_RE siteid)|]; reflexivity. }
  split.
  { intros Hd. apply valid_setting_value in Hd as (url & Ed & Md).
    unfold PiwikNode_init. rewrite !required_setting_eq, Ed, Md.
    destruct (st "PIWIK_SITE_ID") as [siteid|];
      [destruct (Re.search_anchored SITEID_RE siteid)|]; reflexivity. }
  split.
  { unfold valid_setting, PiwikNode_init. rewrite !required_setting_eq.
    destruct (st "PIWIK_DOMAIN_PATH") as [url|];
      [destruct (Re.search_anchored DOMAINPATH_RE url)|];
      intros H; try discriminate H; reflexivity. }
  rewrite render_eq. unfold tag_result.
  assert (L : filter is_required_setting (user_log U ctx) = []).
  { unfold user_log. destruct (mem "userid" (scan ctx)); [reflexivity|].
    destruct (get_user_from_context U ctx) as [u|];
      [destruct (is_authenticated u)|]; reflexivity. }
  assert (G : filter is_required_setting (gate_log U ctx) = []).
  { unfold gate_log. destruct (is_internal_ip U ctx "PIWIK"); reflexivity. }
  destruct (custom_calls 0 (custom_items ctx)) as [customs|] eqn:Ec.
  - rewrite (@custom_variables_calls _ 0 (script (title_calls ctx)) _ Ec).
    simpl. now rewrite filter_app, L, G.
  - pose proof (custom_variables_fails _ 0 (script (title_calls ctx)) Ec) as F.
    destruct (custom_variables 0 (custom_items ctx) (script (title_calls ctx)))
      as [e|s]; [|discriminate].
    simpl. split; [exact L|]. now destruct e.
Qed.

Lemma C7_validation_sites_witness :
  (valid_setting Examples.example_settings "PIWIK_DOMAIN_PATH" DOMAINPATH_RE = true
   /\ valid_setting Examples.word_settings "PIWIK_SITE_ID" SITEID_RE = false)
  /\ log (PiwikNode_init Examples.example_settings)
     = [RequiredSetting "PIWIK_DOMAIN_PATH"; RequiredSetting "PIWIK_SITE_ID"]
  /\ is_configuration_error
       (value (piwik_search Examples.member Examples.word_settings
                 Examples.plain_context (PStr "shoes") None None)) = true.
Proof.
  split; [split; reflexivity|].
  split.
  - exact (proj1 (proj2 (proj2 (proj2
             (C7_validation_sites Examples.member Examples.example_settings
                Examples.plain_context Examples.example_node (PStr "shoes")
                None None)))) eq_refl).
  - exact (proj1
             (C7_validation_sites Examples.member Examples.word_settings
                Examples.plain_context Examples.example_node (PStr "shoes")
                None None) (or_intror eq_refl)).
Defined.


(** * The indices of the custom variables *)

Module IndexFacts.

Lemma custom_calls_nth items : forall index calls k item,
  custom_calls index items = Some calls ->
  nth_error items k = Some item ->
  nth_error calls k = custom_call (index + k) item.
Proof.
  induction items as [|item0 items IH]; intros index calls k item H N.
  - destruct k; discriminate.
  - simpl in H.
    destruct (custom_call index item0) as [c|] eqn:Ec; [|discriminate].
    destruct (custom_calls (S index) items) as [cs|] eqn:E; [|discriminate].
    injection H as <-. destruct k as [|k]; simpl in N.
    + injection N as <-. now rewrite Nat.add_0_r.
    + simpl. rewrite (IH _ _ _ _ E N). f_equal. lia.
Qed.

Lemma filter_all (A : Type) (f : A -> bool) (l : list A) :
  forallb f l = true -> filter f l = l.
Proof.
  induction l as [|a l IH]; simpl; [reflexivity|].
  intros H. apply andb_true_iff in H as [-> H]. now rewrite IH.
Qed.

Lemma title_calls_not_custom ctx :
  filter is_set_custom_variable (title_calls ctx) = [].
Proof. unfold title_calls. now destruct (Dict.get "document_title" (scan ctx)). Qed.

Lemma user_calls_not_custom U ctx :
  filter is_set_custom_variable (user_calls U ctx) = [].
Proof.
  unfold user_calls. destruct (Dict.get "userid" (scan ctx)); [reflexivity|].
  destruct (get_user_from_context U ctx) as [u|];
    [destruct (is_authenticated u)|]; reflexivity.
Qed.

End IndexFacts.

Import IndexFacts.

(** C9.  A render succeeds when and only when every [piwik_] variable of
    the context other than [piwik_userid] and [piwik_document_title] has
    exactly one underscore after the prefix; in particular a key with two
    or more underscores after the prefix makes the render raise a
    [ValueError]. *)
Theorem C9_exactly_one_underscore (U : utils) (node : PiwikNode) (ctx : context) :
  (is_ok (value (render U node ctx)) = true <->
   forall key val,
     binds ctx key val ->
     startswith key "piwik_" = true ->
     key <> "piwik_userid" -> key <> "piwik_document_title" ->
     Str.count "_" (drop 6 key) = 1)
  /\ (forall key val,
         binds ctx key val ->
         startswith key "piwik_" = true ->
         key <> "piwik_userid" -> key <> "piwik_document_title" ->
         2 <= Str.count "_" (drop 6 key) ->
         is_value_error (value (render U node ctx)) = true).
Proof.
  assert (R : is_ok (value (render U node ctx)) = true
              <-> well_formed (custom_items ctx) = true).
  { rewrite render_eq, <- (custom_calls_well_formed (custom_items ctx) 0).
    unfold tag_result.
    destruct (custom_calls 0 (custom_items ctx)) as [customs|] eqn:Ec.
    - rewrite (@custom_variables_calls _ 0 (script (title_calls ctx)) _ Ec).
      simpl. split; congruence.
    - pose proof (custom_variables_fails _ 0 (script (title_calls ctx)) Ec) as F.
      destruct (custom_variables 0 (custom_items ctx) (script (title_calls ctx)));
        [|discriminate].
      simpl. split; [discriminate | congruence]. }
  split; [now rewrite R, well_formed_context|].
  intros key val B P Nu Nt C2.
  assert (Hw : well_formed (custom_items ctx) = false).
  { destruct (well_formed (custom_items ctx)) eqn:E; [|reflexivity].
    pose proof (proj1 (well_formed_context ctx) E key val B P Nu Nt) as C1.
    lia. }
  assert (Ec : custom_calls 0 (custom_items ctx) = None).
  { destruct (custom_calls 0 (custom_items ctx)) eqn:E; [|reflexivity].
    assert (N : custom_calls 0 (custom_items ctx) <> None) by congruence.
    apply custom_calls_well_formed in N. congruence. }
  pose proof (custom_variables_fails _ 0 (script (title_calls ctx)) Ec) as F.
  rewrite render_eq. unfold tag_result.
  destruct (custom_variables 0 (custom_items ctx) (script (title_calls ctx)));
    [exact F | discriminate].
Qed.

Lemma C9_exactly_one_underscore_witness :
  (binds Examples.two_underscores_context "piwik_a_b_c" (PStr "news")
   /\ 2 <= Str.count "_" (drop 6 "piwik_a_b_c"))
  /\ is_value_error
       (value (render Examples.member Examples.example_node
                 Examples.two_underscores_context)) = true
  /\ is_ok (value (render Examples.member Examples.example_node
                     Examples.title_context)) = true.
Proof.
  assert (B : binds Examples.two_underscores_context "piwik_a_b_c" (PStr "news")).
  { eexists. split; [left; reflexivity | left; reflexivity]. }
  split; [split; [exact B | apply le_n]|].
  split.
  - refine (proj2 (C9_exactly_one_underscore Examples.member
                     Examples.example_node Examples.two_underscores_context)
              _ _ B eq_refl _ _ (le_n 2)); discriminate.
  - reflexivity.
Defined.

(** C10.  With well formed keys, the gathered statements are the text of
    the title call, the custom variable calls and the user call, and the
    custom variable calls are one per remaining variable, in iteration
    order: the call at position [k] is made from the variable at position
    [k] with the index [k].  The indices are 0, 1, ..., n-1 for the [n]
    remaining variables, and no call has an index of [n] or more. *)
Theorem C10_custom_variable_indices (U : utils) (ctx : context) :
  well_formed (custom_items ctx) = true ->
  exists customs,
    value (_get_additional_calls U ctx)
    = inr (script (title_calls ctx ++ customs ++ user_calls U ctx)%list)
    /\ filter is_set_custom_variable
         (title_calls ctx ++ customs ++ user_calls U ctx)%list = customs
    /\ map call_index customs
       = map Some (seq 0 (List.length (custom_items ctx)))
    /\ (forall k item,
           nth_error (custom_items ctx) k = Some item ->
           nth_error customs k = custom_call k item)
    /\ (forall c index,
           In c (title_calls ctx ++ customs ++ user_calls U ctx)%list ->
           call_index c = Some index ->
           index < List.length (custom_items ctx)).
Proof.
  intros Hw. apply custom_calls_well_formed with (index := 0) in Hw.
  destruct (custom_calls 0 (custom_items ctx)) as [customs|] eqn:Ec;
    [clear Hw | congruence].
  pose proof (custom_calls_index _ _ Ec) as I.
  assert (F : filter is_set_custom_variable
                (title_calls ctx ++ customs ++ user_calls U ctx)%list = customs).
  { rewrite !filter_app, title_calls_not_custom, user_calls_not_custom.
    rewrite List.app_nil_r. simpl.
    apply filter_all. exact (custom_calls_all_custom _ _ Ec). }
  exists customs. split.
  { rewrite additional_calls_eq. simpl.
    rewrite (@custom_variables_calls _ 0 (script (title_calls ctx)) _ Ec).
    now rewrite !script_app, app_assoc. }
  split; [exact F|]. split; [exact I|]. split.
  { intros k item N. exact (@custom_calls_nth _ 0 _ k item Ec N). }
  intros c index Hin Hc.
  assert (Hcs : In c customs).
  { rewrite <- F. apply filter_In. split; [exact Hin|]. now destruct c. }
  assert (Hi : In (Some index) (map call_index customs)).
  { rewrite <- Hc. now apply in_map. }
  rewrite I in Hi. apply in_map_iff in Hi as (i & [= ->] & Hs).
  apply in_seq in Hs. lia.
Qed.

Lemma C10_custom_variable_indices_witness :
  well_formed (custom_items Examples.title_context) = true
  /\ exists customs,
       value (_get_additional_calls Examples.member Examples.title_context)
       = inr (script (title_calls Examples.title_context ++ customs
                      ++ user_calls Examples.member Examples.title_context)%list)
       /\ map call_index customs = [Some 0; Some 1].
Proof.
  split; [reflexivity|].
  destruct (C10_custom_variable_indices Examples.member Examples.title_context
              eq_refl) as (customs & V & _ & I & _).
  exists customs. split; [exact V | exact I].
Defined.

(** * What the two patterns accept *)

Module PatternFacts.

Import Re ReFacts.

Lemma all_chars_app q (a b : string) :
  all_chars q (a ++ b) = all_chars q a && all_chars q b.
Proof.
  induction a as [|c a IH]; simpl; [reflexivity|].
  now rewrite IH, andb_assoc.
Qed.

Lemma lang_all_chars q (r : regex) (s : string) :
  lang r s -> classes_within q r -> all_chars q s = true.
Proof.
  induction 1 as [|p c Hp|r1 r2 s1 s2 _ IH1 _ IH2|r1 r2 s _ IH|r1 r2 s _ IH
                 |r|r s1 s2 _ IH1 _ IH2]; simpl; intros W.
  - reflexivity.
  - now rewrite (W c Hp).
  - destruct W as [W1 W2]. now rewrite all_chars_app, IH1, IH2.
  - apply IH, W.
  - apply IH, W.
  - reflexivity.
  - now rewrite all_chars_app, IH1, IH2.
Qed.

Lemma lang_plus_class p (s : string) :
  lang (Plus (Class p)) s <-> s <> EmptyString /\ all_chars p s = true.
Proof.
  split.
  - intros H. split.
    + apply lang_cat_inv in H as (s1 & s2 & -> & H1 & _).
      apply lang_class_inv in H1 as (c & -> & _). discriminate.
    + apply (@lang_all_chars p _ _ H). simpl. auto.
  - intros [N A]. destruct s as [|c s]; [congruence|]. clear N.
    revert c A. induction s as [|c' s IH]; intros c A; simpl in A;
      apply andb_true_iff in A as [Ac A].
    + change (String c EmptyString)
        with (String c EmptyString ++ EmptyString).
      apply lang_cat; [now constructor | constructor].
    + change (String c (String c' s))
        with (String c EmptyString ++ String c' s).
      apply lang_cat; [now constructor|].
      specialize (IH c' A). apply lang_cat_inv in IH as (s1 & s2 & -> & H1 & H2).
      now apply lang_star_app.
Qed.

Lemma contains_char_all_chars (c : ascii) (s : string) :
  contains (String c EmptyString) s = true ->
  all_chars (fun x => negb (Ascii.eqb x c)) s = false.
Proof.
  induction s as [|x s IH]; simpl; [discriminate|].
  rewrite (Ascii.eqb_sym c x).
  destruct (Ascii.eqb x c); simpl; [reflexivity|].
  destruct s; simpl in *; auto.
Qed.

Lemma none_of_within (c : ascii) (cs : string) :
  char_in c cs = true ->
  forall x, negb (char_in x cs) = true -> negb (Ascii.eqb x c) = true.
Proof.
  intros Hc x Hx. destruct (Ascii.eqb x c) eqn:E; [|reflexivity].
  apply Ascii.eqb_eq in E as ->. now rewrite Hc in Hx.
Qed.

Lemma chr_within (c d : ascii) :
  Ascii.eqb d c = false ->
  forall x, Ascii.eqb d x = true -> negb (Ascii.eqb x c) = true.
Proof.
  intros Hd x Hx. apply Ascii.eqb_eq in Hx as <-. now rewrite Hd.
Qed.

End PatternFacts.

Import PatternFacts.

(** X1.  A domain path that contains a colon, a question mark, a hash or
    an at sign, such as one with a scheme or a port, does not match
    [DOMAINPATH_RE], and the page view node is not constructed. *)
Theorem X1_domain_path_reserved_character (v : string) (c : ascii) :
  Re.char_in c "?#@:" = true ->
  contains (String c EmptyString) v = true ->
  Re.search_anchored DOMAINPATH_RE v = false
  /\ forall st,
       st "PIWIK_DOMAIN_PATH" = Some v ->
       is_configuration_error (value (PiwikNode_init st)) = true.
Proof.
  intros Hc Hv.
  assert (R : Re.search_anchored DOMAINPATH_RE v = false).
  { destruct (Re.search_anchored DOMAINPATH_RE v) eqn:E; [|reflexivity].
    apply ReFacts.search_anchored_spec in E as (p & L & Ev).
    pose proof (contains_char_all_chars _ _ Hv) as F.
    assert (W : Re.classes_within (fun x => negb (Ascii.eqb x c)) DOMAINPATH_RE).
    { cbn [Re.char_in] in Hc. repeat rewrite orb_true_iff in Hc.
      destruct Hc as [Hc | [Hc | [Hc | [Hc | Hc]]]]; [| | | |discriminate];
        apply Ascii.eqb_eq in Hc; subst c;
        unfold DOMAINPATH_RE, Re.Plus, Re.NoneOf, Re.Chr;
        cbn [Re.classes_within]; repeat split;
        first [ apply none_of_within; reflexivity
              | apply chr_within; reflexivity ]. }
    pose proof (@lang_all_chars _ _ _ L W) as A.
    destruct Ev as [-> | ->]; [congruence|].
    rewrite all_chars_app, A in F. unfold nl in F. cbn [Re.all_chars andb] in F.
    rewrite andb_true_r in F. apply negb_false_iff, Ascii.eqb_eq in F.
    subst c. discriminate Hc. }
  split; [exact R|].
  intros st Hs. apply init_invalid. left. unfold valid_setting. now rewrite Hs.
Qed.

Lemma X1_domain_path_reserved_character_witness :
  (Re.char_in ":" "?#@:" = true /\ contains ":" "http://x.com" = true)
  /\ Re.search_anchored DOMAINPATH_RE "http://x.com" = false.
Proof.
  split; [split; reflexivity|].
  exact (proj1 (X1_domain_path_reserved_character "http://x.com" ":"
                  eq_refl eq_refl)).
Defined.

(** X2.  [SITEID_RE] finds a match in exactly the strings that are one or
    more decimal digits, possibly followed by one final newline. *)
Theorem X2_site_id_digits (v : string) :
  Re.search_anchored SITEID_RE v = true <->
  exists digits,
    digits <> EmptyString
    /\ Re.all_chars Re.is_digit digits = true
    /\ (v = digits \/ v = digits ++ nl).
Proof.
  rewrite ReFacts.search_anchored_spec. unfold SITEID_RE, Re.Digit. split.
  - intros (p & L & E). apply lang_plus_class in L as [N A]. eauto.
  - intros (p & N & A & E). exists p. split; [|exact E].
    apply lang_plus_class. auto.
Qed.

(** * The scope that decides the value of a variable *)

Module ScopeFacts.

Lemma scan_dict_untouched k dict_ : forall vars,
  (forall val, ~ In ("piwik_" ++ k, val) dict_) ->
  Dict.get k (scan_dict vars dict_) = Dict.get k vars.
Proof.
  induction dict_ as [|[var val] dict_ IH]; intros vars H; [reflexivity|].
  rewrite scan_dict_cons, IH, scan_item_eq.
  - destruct (startswith var "piwik_") eqn:P; [|reflexivity].
    apply get_set_ne. intros ->.
    apply (H val). left. now rewrite <- (piwik_key _ P).
  - intros v Hin. apply (H v). now right.
Qed.

Lemma scan_dict_last k v dict_ : forall vars,
  NoDup (map fst dict_) ->
  In ("piwik_" ++ k, v) dict_ ->
  Dict.get k (scan_dict vars dict_) = Some v.
Proof.
  induction dict_ as [|[var val] dict_ IH]; intros vars N Hin; [contradiction|].
  inversion N as [|? ? Hn Hd]; subst.
  rewrite scan_dict_cons. destruct Hin as [[= -> ->] | Hin]; [|now apply IH].
  rewrite scan_dict_untouched.
  - rewrite scan_item_eq.
    cbn [startswith prefix drop Ascii.eqb Bool.eqb andb].
    apply get_set_eq.
  - intros val Hin. apply Hn. apply in_map_iff.
    now exists ("piwik_" ++ k, val).
Qed.

End ScopeFacts.

(** X3.  When several scopes bind the same [piwik_] variable, the scan
    keeps the value of the scope that the iteration over the context
    reaches last. *)
Theorem X3_last_scope_decides (ctx : context) (dict_ : dict) (k : string)
    (v : pyval) :
  NoDup (map fst dict_) ->
  In ("piwik_" ++ k, v) dict_ ->
  Dict.get k (scan (ctx ++ [dict_])%list) = Some v.
Proof.
  intros N Hin. unfold scan. rewrite fold_left_app. simpl.
  now apply ScopeFacts.scan_dict_last.
Qed.

Lemma X3_last_scope_decides_witness :
  (NoDup (map fst [("piwik_userid", PStr "7")])
   /\ In ("piwik_" ++ "userid", PStr "7") [("piwik_userid", PStr "7")])
  /\ Dict.get "userid"
       (scan (Examples.userid_context ++ [[("piwik_userid", PStr "7")]])%list)
     = Some (PStr "7").
Proof.
  assert (N : NoDup (map fst [("piwik_userid", PStr "7")])).
  { constructor; [intros [] | constructor]. }
  assert (Hin : In ("piwik_" ++ "userid", PStr "7") [("piwik_userid", PStr "7")]).
  { left. reflexivity. }
  split; [split; [exact N | exact Hin]|].
  exact (@X3_last_scope_decides Examples.userid_context _ "userid" _ N Hin).
Defined.

(** * Construction, the tag function and the registration *)

(** X4.  The page view node is constructed when and only when both
    settings are present and match their patterns, and the node then holds
    the two setting values unchanged. *)
Theorem X4_construction_iff_valid (st : settings) :
  (is_ok (value (PiwikNode_init st)) = true <->
   valid_setting st "PIWIK_DOMAIN_PATH" DOMAINPATH_RE = true
   /\ valid_setting st "PIWIK_SITE_ID" SITEID_RE = true)
  /\ (forall node,
         value (PiwikNode_init st) = inr node ->
         st "PIWIK_DOMAIN_PATH" = Some (domain_path node)
         /\ st "PIWIK_SITE_ID" = Some (site_id node)).
Proof.
  destruct (valid_setting st "PIWIK_DOMAIN_PATH" DOMAINPATH_RE) eqn:Vd;
    [destruct (valid_setting st "PIWIK_SITE_ID" SITEID_RE) eqn:Vs|].
  - destruct (init_valid st Vd Vs) as (url & siteid & Ed & Es & Ei).
    rewrite Ei. simpl. split; [split; auto|].
    intros node [= <-]. auto.
  - destruct (init_invalid st (or_intror Vs)) as [Hc _].
    destruct (value (PiwikNode_init st)) as [e|node]; [|discriminate].
    simpl. split; [split; [discriminate | intros [_ H]; discriminate]|].
    discriminate.
  - destruct (init_invalid st (or_introl Vd)) as [Hc _].
    destruct (value (PiwikNode_init st)) as [e|node]; [|discriminate].
    simpl. split; [split; [discriminate | intros [H _]; discriminate]|].
    discriminate.
Qed.

(** X5.  The [piwik] tag yields a node when and only when it is written
    without arguments and both settings are valid.  Written with arguments
    it is a template syntax error that names the tag, whatever the settings
    are, and no setting is read. *)
Theorem X5_tag_takes_no_arguments (st : settings) (bits : list string) :
  (is_ok (value (piwik st bits)) = true <->
   List.length bits <= 1
   /\ valid_setting st "PIWIK_DOMAIN_PATH" DOMAINPATH_RE = true
   /\ valid_setting st "PIWIK_SITE_ID" SITEID_RE = true)
  /\ (1 < List.length bits ->
      piwik st bits
      = Outcome [] (inl (TemplateSyntaxError
                           ("'" ++ hd EmptyString bits ++ "' takes no arguments")))).
Proof.
  unfold piwik. destruct (1 <? List.length bits)%nat eqn:E.
  - apply Nat.ltb_lt in E. split; [|reflexivity].
    simpl. split; [discriminate | intros [H _]; lia].
  - apply Nat.ltb_ge in E. split; [|lia].
    destruct (valid_setting st "PIWIK_DOMAIN_PATH" DOMAINPATH_RE) eqn:Vd;
      [destruct (valid_setting st "PIWIK_SITE_ID" SITEID_RE) eqn:Vs|].
    + destruct (init_valid st Vd Vs) as (url & siteid & _ & _ & Ei).
      rewrite Ei. simpl. split; auto.
    + destruct (init_invalid st (or_intror Vs)) as [Hc _].
      destruct (value (PiwikNode_init st)); [|discriminate].
      simpl. split; [discriminate | intros (_ & _ & H); discriminate].
    + destruct (init_invalid st (or_introl Vd)) as [Hc _].
      destruct (value (PiwikNode_init st)); [|discriminate].
      simpl. split; [discriminate | intros (_ & H & _); discriminate].
Qed.

Lemma X5_tag_takes_no_arguments_witness :
  1 < List.length ["piwik"; "now"]
  /\ piwik Examples.word_settings ["piwik"; "now"]
     = Outcome [] (inl (TemplateSyntaxError "'piwik' takes no arguments")).
Proof.
  split; [apply le_n|].
  exact (proj2 (X5_tag_takes_no_arguments Examples.word_settings
                  ["piwik"; "now"]) (le_n 2)).
Defined.

(** X6.  [contribute_to_analytical] checks the configuration first: with
    an invalid setting it fails with a configuration error and the registry
    is not touched; with valid settings it adds the node class once, at
    [body_bottom]. *)
Theorem X6_contribute_checks_configuration (R : Type) (st : settings)
    (add_node : string -> node_class -> R -> R) (registry : R) :
  (valid_setting st "PIWIK_DOMAIN_PATH" DOMAINPATH_RE = true
   /\ valid_setting st "PIWIK_SITE_ID" SITEID_RE = true ->
   value (contribute_to_analytical st add_node registry)
   = inr (add_node "body_bottom" PiwikNodeClass registry))
  /\ (valid_setting st "PIWIK_DOMAIN_PATH" DOMAINPATH_RE = false
      \/ valid_setting st "PIWIK_SITE_ID" SITEID_RE = false ->
      is_configuration_error
        (value (contribute_to_analytical st add_node registry)) = true).
Proof.
  unfold contribute_to_analytical. split.
  - intros [Vd Vs].
    destruct (init_valid st Vd Vs) as (url & siteid & _ & _ & Ei).
    now rewrite Ei.
  - intros H. destruct (init_invalid st H) as [Hc _].
    unfold M.bind.
    destruct (value (PiwikNode_init st)) as [e|node]; [exact Hc | discriminate].
Qed.

Lemma X6_contribute_checks_configuration_witness :
  (valid_setting Examples.example_settings "PIWIK_DOMAIN_PATH" DOMAINPATH_RE = true
   /\ valid_setting Examples.example_settings "PIWIK_SITE_ID" SITEID_RE = true)
  /\ value (contribute_to_analytical Examples.example_settings
              (fun position cls registry => (position, cls) :: registry) [])
     = inr [("body_bottom", PiwikNodeClass)]
  /\ is_configuration_error
       (value (contribute_to_analytical Examples.scheme_settings
                 (fun position cls registry => (position, cls) :: registry) []))
     = true.
Proof.
  split; [split; reflexivity|]. split.
  - exact (proj1 (X6_contribute_checks_configuration Examples.example_settings
                    (fun position cls registry => (position, cls) :: registry) [])
             (conj eq_refl eq_refl)).
  - exact (proj2 (X6_contribute_checks_configuration Examples.scheme_settings
                    (fun position cls registry => (position, cls) :: registry) [])
             (or_introl eq_refl)).
Defined.

(** X7.  With an invalid setting the search tag fails before it looks at
    the context: it reads settings and calls nothing else, neither the user
    lookup nor the internal-IP check. *)
Theorem X7_search_validates_first (U : utils) (st : settings) (ctx : context)
    (query : pyval) (category count : option pyval) :
  valid_setting st "PIWIK_DOMAIN_PATH" DOMAINPATH_RE = false
  \/ valid_setting st "PIWIK_SITE_ID" SITEID_RE = false ->
  forallb is_required_setting
    (log (piwik_search U st ctx query category count)) = true
  /\ is_configuration_error
       (value (piwik_search U st ctx query category count)) = true.
Proof.
  intros H. split; [|now apply search_invalid].
  revert H. unfold piwik_search, valid_setting. rewrite !required_setting_eq.
  destruct (st "PIWIK_DOMAIN_PATH") as [url|];
    [destruct (Re.search_anchored DOMAINPATH_RE url)|];
    (destruct (st "PIWIK_SITE_ID") as [siteid|];
     [destruct (Re.search_anchored SITEID_RE siteid)|]);
    intros [H | H]; try discriminate H; reflexivity.
Qed.

Lemma X7_search_validates_first_witness :
  valid_setting Examples.word_settings "PIWIK_SITE_ID" SITEID_RE = false
  /\ forallb is_required_setting
       (log (piwik_search Examples.inside Examples.word_settings
               Examples.userid_context (PStr "shoes") None None)) = true.
Proof.
  split; [reflexivity|].
  exact (proj1 (X7_search_validates_first Examples.inside Examples.word_settings
                  Examples.userid_context (PStr "shoes") None None
                  (or_intror eq_refl))).
Defined.

(** * The shape of an accepted domain path *)

Module ShapeFacts.

Import Re ReFacts Shape.

Lemma last_char_none (s : string) : last_char s = None -> s = EmptyString.
Proof.
  destruct s as [|c s]; [reflexivity|]. simpl.
  destruct (last_char s); discriminate.
Qed.

Lemma last_char_app (a b : string) :
  last_char (a ++ b)
  = match last_char b with Some d => Some d | None => last_char a end.
Proof.
  induction a as [|c a IH]; simpl.
  - now destruct (last_char b).
  - rewrite IH. destruct (last_char b); [reflexivity|].
    now destruct (last_char a).
Qed.

Lemma lang_last_char q (r : regex) (s : string) :
  lang r s -> last_within q r ->
  forall c, last_char s = Some c -> q c = true.
Proof.
  induction 1 as [|p c Hp|r1 r2 s1 s2 H1 IH1 H2 IH2|r1 r2 s _ IH|r1 r2 s _ IH
                 |r|r s1 s2 H1 IH1 H2 IH2]; simpl; intros W x Hx.
  - discriminate.
  - injection Hx as <-. now apply W.
  - destruct W as [W2 W1]. rewrite last_char_app in Hx.
    destruct (last_char s2) as [d|] eqn:E.
    + injection Hx as <-. now apply IH2.
    + apply last_char_none in E. subst s2.
      apply nullable_lang in H2. now apply IH1; [apply W1|].
  - now apply IH; [apply W|].
  - now apply IH; [apply W|].
  - discriminate.
  - rewrite last_char_app in Hx.
    destruct (last_char s2) as [d|] eqn:E.
    + injection Hx as <-. now apply IH2.
    + now apply IH1.
Qed.

Lemma lang_chr c (s : string) : lang (Chr c) s -> s = String c EmptyString.
Proof.
  intros H. apply lang_class_inv in H as (x & -> & E).
  now apply Ascii.eqb_eq in E as <-.
Qed.

(** Every string that [DOMAINPATH_RE] matches in full has a dot. *)
Lemma domain_path_has_dot (p : string) :
  lang DOMAINPATH_RE p -> contains "." p = true.
Proof.
  intros H. unfold DOMAINPATH_RE in H.
  apply lang_cat_inv in H as (d & pa & -> & Hd & _).
  apply lang_cat_inv in Hd as (g & gs & -> & Hg & _).
  apply lang_cat_inv in Hg as (a & b & -> & Ha & _).
  apply lang_cat_inv in Ha as (l1 & a' & -> & Hl & _).
  apply lang_cat_inv in Hl as (l & dot & -> & _ & Hdot).
  apply lang_chr in Hdot as ->.
  do 4 apply StrFacts.contains_app_l.
  apply StrFacts.contains_app_r. reflexivity.
Qed.

End ShapeFacts.

(** X8.  A domain path that ends with a slash is rejected, as the error
    message says: no trailing slash. *)
Theorem X8_no_trailing_slash (v : string) :
  Re.search_anchored DOMAINPATH_RE (v ++ "/") = false.
Proof.
  destruct (Re.search_anchored DOMAINPATH_RE (v ++ "/")) eqn:E; [|reflexivity].
  apply ReFacts.search_anchored_spec in E as (p & L & Ev).
  assert (W : Shape.last_within (fun x => negb (Ascii.eqb x "/")) DOMAINPATH_RE).
  { unfold DOMAINPATH_RE, Re.Plus, Re.NoneOf, Re.Chr.
    cbn [Shape.last_within Re.nullable andb orb].
    repeat split; try discriminate; intros;
      first [ eapply none_of_within; [|eassumption]; reflexivity
            | eapply chr_within; [|eassumption]; reflexivity ]. }
  assert (Hl : Shape.last_char (v ++ "/") = Some "/"%char).
  { rewrite ShapeFacts.last_char_app. reflexivity. }
  destruct Ev as [Ev | Ev]; rewrite Ev in Hl.
  - pose proof (@ShapeFacts.lang_last_char _ _ _ L W _ Hl). discriminate.
  - rewrite ShapeFacts.last_char_app in Hl. discriminate.
Qed.

(** X9.  A domain path without a dot, such as a bare host name, is
    rejected, and the page view node is not constructed. *)
Theorem X9_domain_path_needs_dot (v : string) :
  contains "." v = false ->
  Re.search_anchored DOMAINPATH_RE v = false
  /\ forall st,
       st "PIWIK_DOMAIN_PATH" = Some v ->
       is_configuration_error (value (PiwikNode_init st)) = true.
Proof.
  intros Hv.
  assert (R : Re.search_anchored DOMAINPATH_RE v = false).
  { destruct (Re.search_anchored DOMAINPATH_RE v) eqn:E; [|reflexivity].
    apply ReFacts.search_anchored_spec in E as (p & L & Ev).
    apply ShapeFacts.domain_path_has_dot in L.
    destruct Ev as [-> | ->]; [congruence|].
    rewrite (contains_app_l _ _ _ L) in Hv. discriminate. }
  split; [exact R|].
  intros st Hs. apply init_invalid. left. unfold valid_setting. now rewrite Hs.
Qed.

Lemma X9_domain_path_needs_dot_witness :
  contains "." "localhost" = false
  /\ Re.search_anchored DOMAINPATH_RE "localhost" = false.
Proof.
  split; [reflexivity|].
  exact (proj1 (X9_domain_path_needs_dot "localhost" eq_refl)).
Defined.

(** * What the scan takes up, and what it leaves *)

Module FrameFacts.

Lemma scan_dict_filter dict_ : forall vars,
  scan_dict vars (filter is_piwik_item dict_) = scan_dict vars dict_.
Proof.
  induction dict_ as [|[var val] dict_ IH]; intros vars; [reflexivity|].
  rewrite scan_dict_cons, scan_item_eq. cbn [filter].
  unfold is_piwik_item at 1. cbn [fst].
  destruct (startswith var "piwik_") eqn:P.
  - rewrite scan_dict_cons, scan_item_eq, P. apply IH.
  - apply IH.
Qed.

Lemma fold_scan_filter ctx : forall vars,
  fold_left scan_dict (map (filter is_piwik_item) ctx) vars
  = fold_left scan_dict ctx vars.
Proof.
  induction ctx as [|dict_ ctx IH]; intros vars; [reflexivity|].
  simpl. now rewrite scan_dict_filter, IH.
Qed.

Lemma split_single (c : ascii) (s : string) :
  Str.count c s = 0 -> split c s = [s].
Proof.
  induction s as [|x s IH]; simpl; [reflexivity|].
  destruct (Ascii.eqb x c); [discriminate|].
  intros H. now rewrite (IH H).
Qed.

Lemma split_single_inv (c : ascii) (s a : string) :
  split c s = [a] -> a = s /\ Str.count c s = 0.
Proof.
  revert a. induction s as [|x s IH]; simpl; intros a H.
  - now injection H as <-.
  - destruct (Ascii.eqb x c).
    + pose proof (split_length c s) as L.
      destruct (split c s); [discriminate L | discriminate H].
    + destruct (split c s) as [|h t] eqn:E.
      * pose proof (split_length c s) as L. rewrite E in L. discriminate L.
      * injection H as <- ->. destruct (IH _ eq_refl) as [-> C]. auto.
Qed.

(** Two fields are the two sides of the only separator. *)
Lemma split_pair (c : ascii) (s a b : string) :
  split c s = [a; b] <->
  s = a ++ String c b /\ Str.count c a = 0 /\ Str.count c b = 0.
Proof.
  split.
  - revert a. induction s as [|x s IH]; simpl; intros a H; [discriminate|].
    destruct (Ascii.eqb x c) eqn:E.
    + injection H as <- H. apply split_single_inv in H as [-> C].
      apply Ascii.eqb_eq in E as ->. auto.
    + destruct (split c s) as [|h t] eqn:Es; [discriminate|].
      injection H as <- ->. destruct (IH _ eq_refl) as (-> & Ca & Cb).
      simpl. rewrite E. auto.
  - intros (-> & Ca & Cb). induction a as [|x a IH]; simpl in *.
    + rewrite Ascii.eqb_refl. now rewrite (split_single _ _ Cb).
    + destruct (Ascii.eqb x c); [discriminate|].
      now rewrite (IH Ca).
Qed.

Lemma custom_calls_keys items : forall index calls,
  custom_calls index items = Some calls ->
  map call_key calls = map fst items.
Proof.
  induction items as [|[raw_name value] items IH]; intros index calls H;
    simpl in H.
  - now injection H as <-.
  - destruct (custom_call index (raw_name, value)) as [c|] eqn:Ec;
      [|discriminate].
    destruct (custom_calls (S index) items) as [cs|] eqn:E; [|discriminate].
    injection H as <-. simpl. rewrite (IH _ _ E). f_equal.
    unfold custom_call in Ec. cbn [fst snd] in Ec.
    destruct (split "_" raw_name) as [|a [|b [|x l]]] eqn:Es; try discriminate.
    injection Ec as <-. apply split_pair in Es as (-> & _ & _). reflexivity.
Qed.

End FrameFacts.

(** X10.  The scan takes up the variables with the [piwik_] prefix only:
    without the other variables of the context the scanned variables are
    the same, and so are the gathered statements when the user lookups
    answer the same. *)
Theorem X10_scan_ignores_other_variables (U : utils) (ctx : context) :
  scan (map (filter is_piwik_item) ctx) = scan ctx
  /\ (get_user_from_context U (map (filter is_piwik_item) ctx)
      = get_user_from_context U ctx ->
      (forall u,
          get_identity U (map (filter is_piwik_item) ctx) "piwik" _identify u
          = get_identity U ctx "piwik" _identify u) ->
      _get_additional_calls U (map (filter is_piwik_item) ctx)
      = _get_additional_calls U ctx).
Proof.
  assert (E : scan (map (filter is_piwik_item) ctx) = scan ctx)
    by apply FrameFacts.fold_scan_filter.
  split; [exact E|]. intros Hu Hi.
  rewrite !additional_calls_eq.
  unfold user_log, user_calls, title_calls, custom_items.
  rewrite E, Hu.
  destruct (get_user_from_context U ctx) as [u|]; [|reflexivity].
  now rewrite Hi.
Qed.

Lemma X10_scan_ignores_other_variables_witness :
  get_user_from_context Examples.member
    (map (filter is_piwik_item) Examples.plain_context)
  = get_user_from_context Examples.member Examples.plain_context
  /\ _get_additional_calls Examples.member
       (map (filter is_piwik_item) Examples.plain_context)
     = _get_additional_calls Examples.member Examples.plain_context.
Proof.
  split; [reflexivity|].
  exact (proj2 (X10_scan_ignores_other_variables Examples.member
                  Examples.plain_context) eq_refl (fun _ => eq_refl)).
Defined.

(** X11.  In a context without [piwik_] variables the user is looked up
    once; for an authenticated user the identity is looked up and the
    gathered text is the single [setUserId] call made with it, and for an
    anonymous user or none the gathered text is empty and the identity is
    not looked up. *)
Theorem X11_statements_without_variables (U : utils) (ctx : context) :
  no_piwik_variables ctx ->
  _get_additional_calls U ctx
  = match get_user_from_context U ctx with
    | Some u =>
        if is_authenticated u
        then Outcome [UserFromContext; Identity u]
               (inr (js (SetUserId (get_identity U ctx "piwik" _identify u))))
        else Outcome [UserFromContext] (inr EmptyString)
    | None => Outcome [UserFromContext] (inr EmptyString)
    end.
Proof.
  intros Hn. rewrite additional_calls_eq.
  unfold user_log, user_calls, title_calls, custom_items, mem.
  rewrite (scan_nothing Hn). simpl.
  destruct (get_user_from_context U ctx) as [u|]; [|reflexivity].
  destruct (is_authenticated u); [|reflexivity].
  cbn [script fold_right]. now rewrite app_nil_r.
Qed.

Lemma X11_statements_without_variables_witness :
  no_piwik_variables Examples.plain_context
  /\ _get_additional_calls Examples.outside Examples.plain_context
     = Outcome [UserFromContext] (inr EmptyString)
  /\ _get_additional_calls Examples.member Examples.plain_context
     = Outcome [UserFromContext; Identity Examples.alice]
         (inr (js (SetUserId (PStr "alice")))).
Proof.
  assert (Hn : no_piwik_variables Examples.plain_context).
  { intros key val (d & Hd & Hin).
    destruct Hd as [<- | []]. destruct Hin as [[= <- _] | []]. reflexivity. }
  split; [exact Hn|]. split.
  - exact (X11_statements_without_variables Examples.outside Hn).
  - exact (X11_statements_without_variables Examples.member Hn).
Defined.

(** X12.  The key of a custom variable unpacks into a name and a scope
    exactly when it is the name, one underscore and the scope, neither of
    which has an underscore; the name or the scope may be empty. *)
Theorem X12_name_and_scope (raw_name name scope : string) :
  unpack2 (split "_" raw_name) = inr (name, scope) <->
  raw_name = name ++ "_" ++ scope
  /\ Str.count "_" name = 0 /\ Str.count "_" scope = 0.
Proof.
  rewrite <- (FrameFacts.split_pair "_" raw_name name scope). split.
  - destruct (split "_" raw_name) as [|a [|b [|c l]]]; simpl; try discriminate.
    now intros [= -> ->].
  - now intros ->.
Qed.

(** X13.  With well formed keys there is one [setCustomVariable] call for
    each remaining variable, however many scopes bind it: the name and
    the scope of the calls rebuild the keys of the variables, in order,
    and no key comes twice. *)
Theorem X13_one_call_per_variable (ctx : context) :
  well_formed (custom_items ctx) = true ->
  exists customs,
    custom_calls 0 (custom_items ctx) = Some customs
    /\ map call_key customs = map fst (custom_items ctx)
    /\ NoDup (map call_key customs).
Proof.
  intros Hw. apply custom_calls_well_formed with (index := 0) in Hw.
  destruct (custom_calls 0 (custom_items ctx)) as [customs|] eqn:Ec;
    [clear Hw | congruence].
  exists customs. split; [reflexivity|].
  pose proof (FrameFacts.custom_calls_keys _ _ Ec) as K.
  split; [exact K|]. rewrite K. unfold custom_items.
  apply nodup_del, nodup_del, nodup_scan.
Qed.

Lemma X13_one_call_per_variable_witness :
  well_formed (custom_items (Examples.title_context ++ Examples.title_context)%list)
  = true
  /\ exists customs,
       custom_calls 0
         (custom_items (Examples.title_context ++ Examples.title_context)%list)
       = Some customs
       /\ map call_key customs = ["section_page"; "lang_visit"].
Proof.
  split; [reflexivity|].
  destruct (X13_one_call_per_variable
              (Examples.title_context ++ Examples.title_context)%list eq_refl)
    as (customs & Ec & K & _).
  exists customs. split; [exact Ec | exact K].
Defined.

(** * What the returned markup holds *)

Module MarkupFacts.

Lemma contains_refl (n : string) : contains n n = true.
Proof. rewrite <- (app_nil_r n) at 2. apply contains_here. Qed.

Lemma contains_mid (a n b : string) : contains n (a ++ n ++ b) = true.
Proof. apply contains_app_r, contains_here. Qed.

Lemma contains_site_id url siteid :
  contains ("_paq.push(['setSiteId', " ++ siteid ++ "]);")
    (snippet_close url siteid) = true.
Proof.
  unfold snippet_close. do 27 apply contains_app_r.
  match goal with
  | |- contains _ (_ ++ ?X) = true =>
      change (contains ("_paq.push(['setSiteId', " ++ siteid ++ "]);")
                ("    " ++ "_paq.push(['setSiteId', " ++ X) = true)
  end.
  apply contains_app_r.
  match goal with
  | |- contains ?n (?a ++ ?i ++ ?b ++ ?R) = true =>
      replace (a ++ i ++ b ++ R) with ((a ++ i ++ b) ++ R)
        by (now rewrite !app_assoc)
  end.
  apply contains_here.
Qed.

Lemma contains_pixel_url url siteid :
  contains ("http://" ++ url ++ "/piwik.php?idsite=" ++ siteid)
    (snippet_close url siteid) = true.
Proof.
  unfold snippet_close. do 41 apply contains_app_r.
  match goal with
  | |- contains ?n (?a ++ ?u ++ ?b ++ ?i ++ ?R) = true =>
      replace (a ++ u ++ b ++ i ++ R) with ((a ++ u ++ b ++ i) ++ R)
        by (now rewrite !app_assoc)
  end.
  apply contains_here.
Qed.

Lemma contains_script n c calls :
  In c calls -> contains n (js c) = true -> contains n (script calls) = true.
Proof.
  induction calls as [|c' calls IH]; simpl; [contradiction|].
  intros [-> | Hin] H; [now apply contains_app_l|].
  apply contains_app_r. now apply IH.
Qed.

Lemma contains_user_id v : contains (py_str v) (js (SetUserId v)) = true.
Proof. unfold js. do 6 apply contains_app_r. apply contains_here. Qed.

Lemma contains_title v : contains (py_str v) (js (SetDocumentTitle v)) = true.
Proof. unfold js. do 6 apply contains_app_r. apply contains_here. Qed.

Lemma contains_custom_value index name v scope :
  contains (py_str v) (js (SetCustomVariable index name v scope)) = true.
Proof. unfold js. do 5 apply contains_app_r. apply contains_here. Qed.

Lemma get_in_nodup k v (d : dict) :
  NoDup (Dict.keys d) -> In (k, v) d -> Dict.get k d = Some v.
Proof.
  unfold Dict.keys. induction d as [|[k0 v0] d IH]; simpl; [contradiction|].
  intros N Hin. inversion N as [|? ? Hn Hd]; subst.
  destruct Hin as [[= -> ->] | Hin].
  - now rewrite String.eqb_refl.
  - destruct (String.eqb k k0) eqn:E; [|now apply IH].
    apply String.eqb_eq in E as ->. exfalso. apply Hn.
    apply in_map_iff. now exists (k0, v).
Qed.

Lemma printable_hex_digit n : printable (Json.hex_digit n) = true.
Proof.
  do 15 (destruct n as [|n]; [reflexivity|]). reflexivity.
Qed.

Lemma printable_escape c : Re.all_chars printable (Json.escape c) = true.
Proof.
  unfold Json.escape.
  repeat match goal with
         | |- context [if ?b then _ else _] => destruct b; [reflexivity|]
         end.
  cbn [append Re.all_chars]. rewrite !printable_hex_digit. reflexivity.
Qed.

Lemma printable_unescaped c : Json.needs_escape c = false -> printable c = true.
Proof.
  unfold Json.needs_escape, printable. intros H.
  repeat (apply orb_false_iff in H as [H ?]).
  apply andb_true_iff. split; apply Nat.leb_le.
  - apply Nat.ltb_ge. assumption.
  - apply Nat.ltb_ge. assumption.
Qed.

Lemma printable_encode_chars s :
  Re.all_chars printable (Json.encode_chars s) = true.
Proof.
  induction s as [|c s IH]; simpl; [reflexivity|].
  rewrite all_chars_app, IH, andb_true_r.
  destruct (Json.needs_escape c) eqn:E; [apply printable_escape|].
  simpl. now rewrite (printable_unescaped _ E).
Qed.

Lemma printable_uint d :
  Re.all_chars printable (NilEmpty.string_of_uint d) = true.
Proof. induction d; simpl; auto. Qed.

Lemma printable_decimal z : Re.all_chars printable (decimal z) = true.
Proof.
  unfold decimal, NilZero.string_of_int, NilZero.string_of_uint.
  destruct (Z.to_int z) as [d|d]; destruct d;
    try reflexivity; apply (printable_uint (_ _)) || (simpl; apply printable_uint).
Qed.

Lemma printable_dumps v : Re.all_chars printable (Json.dumps v) = true.
Proof.
  destruct v as [|[]|z|s]; try reflexivity.
  - apply printable_decimal.
  - unfold Json.dumps. rewrite !all_chars_app, printable_encode_chars.
    reflexivity.
Qed.

Lemma encode_chars_plain s :
  Re.all_chars (fun c => negb (Json.needs_escape c)) s = true ->
  Json.encode_chars s = s.
Proof.
  induction s as [|c s IH]; simpl; [reflexivity|].
  intros H. apply andb_true_iff in H as [Hc H].
  apply negb_true_iff in Hc. now rewrite Hc, (IH H).
Qed.

End MarkupFacts.

Import MarkupFacts.

(** X14.  Whatever the node, the context and the gate, a render that
    returns holds the [trackPageView] call, the [setSiteId] call with the
    site ID of the node, and the address of the tracking pixel built from
    the domain path and the site ID of the node. *)
Theorem X14_snippet_holds_node_values (U : utils) (node : PiwikNode)
    (ctx : context) (html : string) :
  value (render U node ctx) = inr html ->
  contains "_paq.push(['trackPageView']);" html = true
  /\ contains ("_paq.push(['setSiteId', " ++ site_id node ++ "]);") html = true
  /\ contains ("http://" ++ domain_path node ++ "/piwik.php?idsite="
               ++ site_id node) html = true.
Proof.
  rewrite render_eq. unfold tag_result.
  destruct (custom_variables 0 (custom_items ctx) (script (title_calls ctx)))
    as [e|var_str]; simpl; [discriminate|].
  intros [= <-]. split; [|split]; apply contains_gated.
  - exact (contains_snippet_method _ "['trackPageView']" _ _).
  - apply contains_snippet_close, contains_site_id.
  - apply contains_snippet_close, contains_pixel_url.
Qed.

Lemma X14_snippet_holds_node_values_witness :
  exists html,
    value (render Examples.inside Examples.example_node Examples.title_context)
    = inr html
    /\ contains "_paq.push(['setSiteId', 5]);" html = true
    /\ contains "http://example.com/piwik.php?idsite=5" html = true.
Proof.
  eexists. split; [vm_compute; reflexivity|].
  refine (proj2 (X14_snippet_holds_node_values Examples.inside
                   Examples.example_node Examples.title_context _)).
  vm_compute. reflexivity.
Defined.

(** X15.  The value of every [piwik_] variable that the scan keeps is put
    into the gathered statements, and so into the returned markup, as it
    is: nothing is escaped. *)
Theorem X15_values_are_not_escaped (U : utils) (node : PiwikNode)
    (ctx : context) (k : string) (v : pyval) :
  well_formed (custom_items ctx) = true ->
  Dict.get k (scan ctx) = Some v ->
  exists pretrack html,
    value (_get_additional_calls U ctx) = inr pretrack
    /\ contains (py_str v) pretrack = true
    /\ value (render U node ctx) = inr html
    /\ contains (py_str v) html = true.
Proof.
  intros Hw G. apply custom_calls_well_formed with (index := 0) in Hw.
  destruct (custom_calls 0 (custom_items ctx)) as [customs|] eqn:Ec;
    [clear Hw | congruence].
  pose proof (@custom_variables_calls _ 0 (script (title_calls ctx)) _ Ec) as Ev.
  set (calls := (title_calls ctx ++ customs ++ user_calls U ctx)%list).
  assert (Es : (script (title_calls ctx) ++ script customs)
               ++ script (user_calls U ctx) = script calls).
  { unfold calls. now rewrite !script_app, app_assoc. }
  assert (C : contains (py_str v) (script calls) = true).
  { destruct (string_dec k "userid") as [->|Nu].
    - apply contains_script with (c := SetUserId v); [|apply contains_user_id].
      unfold calls, user_calls. rewrite G. apply in_or_app. right.
      apply in_or_app. right. now left.
    - destruct (string_dec k "document_title") as [->|Nt].
      + apply contains_script with (c := SetDocumentTitle v);
          [|apply contains_title].
        unfold calls, title_calls. rewrite G. apply in_or_app. left. now left.
      + assert (Hin : In (k, v) (custom_items ctx)).
        { unfold custom_items. apply in_del; [exact Nt|].
          apply in_del; [exact Nu|]. now apply get_in. }
        apply In_nth_error in Hin as [n Hn].
        pose proof (@custom_calls_nth _ 0 _ n (k, v) Ec Hn) as Hc.
        simpl in Hc.
        destruct (custom_call n (k, v)) as [c|] eqn:Ecall.
        * apply contains_script with (c := c).
          { unfold calls. apply in_or_app. right. apply in_or_app. left.
            exact (nth_error_In _ _ Hc). }
          unfold custom_call in Ecall. cbn [fst snd] in Ecall.
          destruct (split "_" k) as [|a [|b [|x l]]]; try discriminate.
          injection Ecall as <-. apply contains_custom_value.
        * exfalso. apply nth_error_None in Hc.
          assert (L : List.length customs = List.length (custom_items ctx)).
          { pose proof (custom_calls_index _ _ Ec) as I.
            apply (f_equal (@List.length _)) in I.
            now rewrite !length_map, length_seq in I. }
          assert (n < List.length (custom_items ctx))
            by (apply nth_error_Some; congruence).
          lia. }
  exists (script calls). eexists.
  split; [rewrite additional_calls_eq; simpl; now rewrite Ev, Es|].
  split; [exact C|].
  split; [rewrite render_eq; unfold tag_result; rewrite Ev, Es; reflexivity|].
  apply contains_gated. unfold snippet.
  apply contains_app_r. now apply contains_app_l.
Qed.

Lemma X15_values_are_not_escaped_witness :
  (well_formed (custom_items Examples.closing_context) = true
   /\ Dict.get "document_title" (scan Examples.closing_context)
      = Some (PStr "--><script>alert(1)</script><!--"))
  /\ exists html,
       value (render Examples.inside Examples.example_node
                Examples.closing_context) = inr html
       /\ contains "--><script>alert(1)</script><!--" html = true.
Proof.
  split; [split; reflexivity|].
  destruct (X15_values_are_not_escaped Examples.inside Examples.example_node
              Examples.closing_context "document_title" eq_refl eq_refl)
    as (pretrack & html & _ & _ & V & C).
  exists html. split; [exact V | exact C].
Defined.

(** X16.  The JSON text of a search argument holds printable ASCII
    characters only, whatever the argument, and so does the tracking call
    of the search tag.  A string of printable characters other than the
    double quote and the backslash is left as it is between two double
    quotes: markup in a query is not escaped. *)
Theorem X16_search_arguments_encoding (query category count : pyval) :
  Re.all_chars printable (Json.dumps query) = true
  /\ Re.all_chars printable (track_site_search query category count) = true
  /\ (forall s,
         Re.all_chars (fun c => negb (Json.needs_escape c)) s = true ->
         Json.dumps (PStr s) = dq ++ s ++ dq).
Proof.
  split; [apply printable_dumps|]. split.
  - unfold track_site_search.
    rewrite !all_chars_app, !printable_dumps. reflexivity.
  - intros s H. unfold Json.dumps. now rewrite (encode_chars_plain _ H).
Qed.

Lemma X16_search_arguments_encoding_witness :
  Re.all_chars (fun c => negb (Json.needs_escape c)) "</script>" = true
  /\ Json.dumps (PStr "</script>") = dq ++ "</script>" ++ dq.
Proof.
  split; [reflexivity|].
  exact (proj2 (proj2 (X16_search_arguments_encoding (PStr "shoes")
                         (PBool false) (PBool false))) "</script>" eq_refl).
Defined.

(** X17.  A search tag that returns was given valid settings, and the
    returned markup holds its [trackSiteSearch] call, the [setSiteId] call
    with the site ID setting and the address of the tracking pixel built
    from the two settings. *)
Theorem X17_search_holds_settings (U : utils) (st : settings) (ctx : context)
    (query : pyval) (category count : option pyval) (html : string) :
  value (piwik_search U st ctx query category count) = inr html ->
  exists url siteid,
    st "PIWIK_DOMAIN_PATH" = Some url
    /\ Re.search_anchored DOMAINPATH_RE url = true
    /\ st "PIWIK_SITE_ID" = Some siteid
    /\ Re.search_anchored SITEID_RE siteid = true
    /\ contains ("_paq.push("
                 ++ track_site_search query (or_false category) (or_false count)
                 ++ ");") html = true
    /\ contains ("_paq.push(['setSiteId', " ++ siteid ++ "]);") html = true
    /\ contains ("http://" ++ url ++ "/piwik.php?idsite=" ++ siteid) html = true.
Proof.
  intros H.
  destruct (valid_setting st "PIWIK_DOMAIN_PATH" DOMAINPATH_RE) eqn:Vd;
    [destruct (valid_setting st "PIWIK_SITE_ID" SITEID_RE) eqn:Vs|].
  - apply valid_setting_value in Vd as (url & Ed & Md).
    apply valid_setting_value in Vs as (siteid & Es & Ms).
    exists url, siteid. repeat (split; [assumption|]).
    rewrite (search_valid U st ctx query category count Ed Md Es Ms) in H.
    unfold tag_result in H.
    destruct (custom_variables 0 (custom_items ctx) (script (title_calls ctx)))
      as [e|var_str]; simpl in H; [discriminate|].
    injection H as <-. split; [|split]; apply contains_gated.
    + apply contains_snippet_method.
    + apply contains_snippet_close, contains_site_id.
    + apply contains_snippet_close, contains_pixel_url.
  - pose proof (search_invalid U st ctx query category count (or_intror Vs)) as F.
    rewrite H in F. discriminate.
  - pose proof (search_invalid U st ctx query category count (or_introl Vd)) as F.
    rewrite H in F. discriminate.
Qed.

Lemma X17_search_holds_settings_witness :
  exists html,
    value (piwik_search Examples.member Examples.example_settings
             Examples.title_context (PStr "shoes") None None) = inr html
    /\ contains "_paq.push(['setSiteId', 5]);" html = true.
Proof.
  destruct (value (piwik_search Examples.member Examples.example_settings
                     Examples.title_context (PStr "shoes") None None))
    as [e|html] eqn:V.
  - exfalso. vm_compute in V. discriminate V.
  - exists html. split; [reflexivity|].
    destruct (X17_search_holds_settings _ _ _ _ _ _ V)
      as (url & siteid & Ed & _ & Es & _ & _ & C & _).
    injection Es as <-. exact C.
Defined.

(** X18.  A render that returns has gathered the statements first and has
    then asked the internal-IP check exactly once; [disable_html] is called
    when and only when the check flags the request, and either way the
    formatted snippet is part of the returned markup. *)
Theorem X18_gate_after_statements (U : utils) (node : PiwikNode)
    (ctx : context) (html : string) :
  value (render U node ctx) = inr html ->
  exists pretrack,
    value (_get_additional_calls U ctx) = inr pretrack
    /\ log (render U node ctx)
       = (log (_get_additional_calls U ctx)
          ++ InternalIp "PIWIK"
             :: if is_internal_ip U ctx "PIWIK"
                then [DisableHtml "Piwik"] else [])%list
    /\ contains (snippet pretrack "['trackPageView']" (domain_path node)
                   (site_id node)) html = true.
Proof.
  rewrite render_eq, additional_calls_eq. unfold tag_result.
  destruct (custom_variables 0 (custom_items ctx) (script (title_calls ctx)))
    as [e|var_str]; simpl; [discriminate|].
  intros [= <-]. eexists. split; [reflexivity|]. split; [reflexivity|].
  apply contains_gated, contains_refl.
Qed.

Lemma X18_gate_after_statements_witness :
  exists html,
    value (render Examples.inside Examples.example_node Examples.title_context)
    = inr html
    /\ log (render Examples.inside Examples.example_node Examples.title_context)
       = [UserFromContext; Identity Examples.alice; InternalIp "PIWIK";
          DisableHtml "Piwik"].
Proof.
  destruct (value (render Examples.inside Examples.example_node
                     Examples.title_context)) as [e|html] eqn:V.
  - exfalso. vm_compute in V. discriminate V.
  - exists html. split; [reflexivity|].
    destruct (X18_gate_after_statements _ _ _ V) as (pretrack & _ & L & _).
    rewrite L. vm_compute. reflexivity.
Defined.

(** X19.  The user ID and the document title are reported by their own
    calls only: no [setCustomVariable] call is made from the key [userid],
    nor from the key [document_title], which would split into the name
    [document] and the scope [title]. *)
Theorem X19_special_keys_are_not_custom (ctx : context)
    (customs : list paq_call) :
  custom_calls 0 (custom_items ctx) = Some customs ->
  ~ In "userid" (map call_key customs)
  /\ ~ In "document_title" (map call_key customs).
Proof.
  intros Ec. rewrite (FrameFacts.custom_calls_keys _ _ Ec).
  split; intros Hin; apply in_map_iff in Hin as ([k v] & E & Hin);
    simpl in E; subst k;
    apply custom_items_origin in Hin as (Nu & Nt & _); congruence.
Qed.

Lemma X19_special_keys_are_not_custom_witness :
  exists customs,
    custom_calls 0 (custom_items Examples.title_context) = Some customs
    /\ ~ In "document_title" (map call_key customs).
Proof.
  eexists. split; [vm_compute; reflexivity|].
  refine (proj2 (X19_special_keys_are_not_custom Examples.title_context _)).
  vm_compute. reflexivity.
Defined.

(** X20.  For a request that the internal-IP check flags, a render that
    returns gives [disable_html] of the formatted snippet, and that string
    has no [<script] outside a comment whenever the formatted snippet holds
    neither [-->] nor [--!>]. *)
Theorem X20_disabled_snippet_is_inert (U : utils) (node : PiwikNode)
    (ctx : context) (html : string) :
  is_internal_ip U ctx "PIWIK" = true ->
  value (render U node ctx) = inr html ->
  exists pretrack,
    value (_get_additional_calls U ctx) = inr pretrack
    /\ html = disable_html
                (snippet pretrack "['trackPageView']" (domain_path node)
                   (site_id node)) "Piwik"
    /\ (contains "-->"
          (snippet pretrack "['trackPageView']" (domain_path node)
             (site_id node)) = false ->
        contains "--!>"
          (snippet pretrack "['trackPageView']" (domain_path node)
             (site_id node)) = false ->
        has_live_script_tag html = false).
Proof.
  intros Hi. rewrite render_eq, additional_calls_eq. unfold tag_result, gated.
  rewrite Hi.
  destruct (custom_variables 0 (custom_items ctx) (script (title_calls ctx)))
    as [e|var_str]; cbn [value]; [discriminate|].
  intros E. injection E as <-.
  eexists. split; [reflexivity|]. split; [reflexivity|].
  intros H1 H2. unfold has_live_script_tag.
  now rewrite (disabled_is_inert _ H1 H2).
Qed.

Lemma X20_disabled_snippet_is_inert_witness :
  is_internal_ip Examples.inside Examples.title_context "PIWIK" = true
  /\ exists html,
       value (render Examples.inside Examples.example_node Examples.title_context)
       = inr html
       /\ has_live_script_tag html = false.
Proof.
  split; [reflexivity|].
  destruct (value (render Examples.inside Examples.example_node
                     Examples.title_context)) as [e|html] eqn:V.
  - exfalso. vm_compute in V. discriminate V.
  - exists html. split; [reflexivity|].
    destruct (X20_disabled_snippet_is_inert Examples.inside
                Examples.example_node Examples.title_context eq_refl V)
      as (pretrack & P & _ & I).
    rewrite additional_calls_eq in P. vm_compute in P. injection P as <-.
    apply I; vm_compute; reflexivity.
Defined.
